(** * Path-finding agents of [project_1/core/agents.py]

    A shallow embedding of the four search strategies (greedy "Example",
    depth-first, branch-and-bound, A-star) and of the agent registry,
    together with the properties claimed for them.

    Python lists are [list]s that grow at their right end ([l ++ [x]] is
    [l.append(x)], [last l] is [l[-1]]); the DFS [visited] set is a
    [gset]; integers are [Z]; a [while] loop is its body, a function from
    the loop state to a [step], iterated by [run_loop] under a bound on
    the number of iterations. *)

From stdpp Require Import base decidable option list gmap sets strings relations sorting.
From Stdlib Require Import ZArith Lia.

Set Warnings "-clear-no-such-hyp".

(** ** Data model *)

Abbreviation coord := (Z * Z)%type.

(** Modelled from the spec: [Tile] (class of [core.grid], not part of the
    sources at hand) is a coordinate plus the cost to enter it. *)
Record Tile := mkTile { pos : coord; cost : Z }.

#[global] Instance Tile_eq_dec : EqDecision Tile.
Proof. solve_decision. Defined.

(** Modelled from the spec: [Grid] (class of [core.grid]) as the two
    look-ups the agents consume.  [neighbors4 r c] lists the tiles next to
    [(r, c)] in the order the grid yields them; [get r c] is the tile at
    [(r, c)]. *)
Record Grid := mkGrid {
  neighbors4 : Z → Z → list Tile;
  get : Z → Z → Tile
}.

(** Modelled from the spec: [Grid.manhattan] is [|r1-r2| + |c1-c2|]. *)
Definition manhattan (a b : coord) : Z :=
  (Z.abs (a.1 - b.1) + Z.abs (a.2 - b.2))%Z.

(** Modelled from the spec: [Path] (class of [core.path]) wraps the
    ordered sequence of coordinates it is built from; the empty sequence
    is the "not found" value. *)
Abbreviation Path := (list coord).

(** ** Loops, exceptions and outcomes *)

Inductive exn := ValueError (msg : string) | KeyError | IndexError.

Inductive step (S A : Type) :=
  | Continue (s : S)
  | Return (a : A)
  | Raise (e : exn).
Arguments Continue {S A} s.
Arguments Return {S A} a.
Arguments Raise {S A} e.

(** [Running s]: the bound was used up with the loop still in state [s]. *)
Inductive outcome (S A : Type) :=
  | Returned (a : A)
  | Raised (e : exn)
  | Running (s : S).
Arguments Returned {S A} a.
Arguments Raised {S A} e.
Arguments Running {S A} s.

Fixpoint run_loop {S A} (body : S → step S A) (fuel : nat) (s : S) : outcome S A :=
  match fuel with
  | O => Running s
  | Datatypes.S fuel' =>
      match body s with
      | Continue s' => run_loop body fuel' s'
      | Return a => Returned a
      | Raise e => Raised e
      end
  end.

(** ** Python built-ins used by the agents *)

(** Tuples of two integers compare lexicographically. *)
Definition key_lt (a b : Z * Z) : bool :=
  (a.1 <? b.1)%Z || ((a.1 =? b.1)%Z && (a.2 <? b.2)%Z).

(** [min(iterable)] over integers; [None] stands for the [ValueError]
    raised on an empty argument. *)
Definition py_min (l : list Z) : option Z :=
  match l with
  | [] => None
  | x :: l' => Some (foldl (λ m y, if (y <? m)%Z then y else m) x l')
  end.

(** [min(first :: rest, key=key)]: the first element whose key is minimal. *)
Definition py_min_by {A} (key : A → Z * Z) (first : A) (rest : list A) : A :=
  foldl (λ best y, if key_lt (key y) (key best) then y else best) first rest.

(** [l.remove(x)]: drops the first element equal to [x]; [None] stands
    for the [ValueError] raised when no element equals [x]. *)
Fixpoint py_remove {A} `{EqDecision A} (x : A) (l : list A) : option (list A) :=
  match l with
  | [] => None
  | y :: l' => if decide (x = y) then Some l' else (y ::.) <$> py_remove x l'
  end.

(** [sorted(l, key=key)] is stable: an element goes before the first
    element of the sorted rest whose key is not smaller. *)
Fixpoint insert_by_key {A} (x : (Z * Z) * A) (l : list ((Z * Z) * A)) : list ((Z * Z) * A) :=
  match l with
  | [] => [x]
  | y :: l' => if key_lt y.1 x.1 then y :: insert_by_key x l' else x :: l
  end.

Definition sort_keyed {A} (l : list ((Z * Z) * A)) : list ((Z * Z) * A) :=
  foldr insert_by_key [] l.

(** The keys are computed first; a key that raises makes [sorted] raise. *)
Definition py_sorted {A} (key : A → option (Z * Z)) (l : list A) : option (list A) :=
  keyed ← mapM (λ x, k ← key x; Some (k, x)) l;
  Some ((sort_keyed keyed).*2).

(** [d[k]] on a dict given by its items; [None] stands for [KeyError]. *)
Fixpoint dict_get {K V} `{EqDecision K} (d : list (K * V)) (k : K) : option V :=
  match d with
  | [] => None
  | (k', v) :: d' => if decide (k = k') then Some v else dict_get d' k
  end.

(** [random.randint(lo, hi)] drawn from the raw random value [raw]: every
    value of [lo..hi] arises from some [raw]. *)
Definition randint (raw lo hi : nat) : nat := lo + raw mod (hi - lo + 1).

(** ** ExampleAgent.find_path *)

(** The loop state is [nodes] and the number of random draws made so far;
    [rng k] is the raw value behind the [k]-th draw. *)
Definition Example_body (rng : nat → nat) (g : Grid) (goal : coord)
    (s : list coord * nat) : step (list coord * nat) Path :=
  let '(nodes, k) := s in
  match last nodes with
  | None => Raise IndexError
  | Some cur =>
      if decide (cur = goal) then Return nodes else
      let '(r, c) := cur in
      let neighbors := neighbors4 g r c in
      match py_min ((λ t, manhattan (pos t) goal) <$> neighbors) with
      | None => Raise (ValueError "min() arg is an empty sequence")
      | Some min_dist =>
          let best_tiles := filter (λ tile, manhattan (pos tile) goal = min_dist) neighbors in
          match best_tiles !! randint (rng k) 0 (length best_tiles - 1) with
          | None => Raise IndexError
          | Some best_tile => Continue (nodes ++ [pos best_tile], Datatypes.S k)
          end
      end
  end.

Definition ExampleAgent_find_path (rng : nat → nat) (fuel : nat) (g : Grid) (start goal : coord)
    : outcome (list coord * nat) Path :=
  run_loop (Example_body rng g goal) fuel ([start], 0).

(** ** DFSAgent.find_path *)

Definition directions : list (coord * Z) :=
  [((0, 1), 0); ((1, 0), 1); ((0, -1), 2); ((-1, 0), 3)]%Z.

Definition DFS_key (r c : Z) (t : Tile) : option (Z * Z) :=
  d ← dict_get directions ((pos t).1 - r, (pos t).2 - c)%Z;
  Some (cost t, d).

Definition DFS_body (g : Grid) (goal : coord)
    (s : list coord * gset coord) : step (list coord * gset coord) Path :=
  let '(nodes, visited) := s in
  match last nodes with
  | None => Return nodes
  | Some cur =>
      if decide (cur = goal) then Return nodes else
      let '(r, c) := cur in
      let neighbors := neighbors4 g r c in
      match py_sorted (DFS_key r c) (filter (λ tile, pos tile ∉ visited) neighbors) with
      | None => Raise KeyError
      | Some [] => Continue (removelast nodes, visited)
      | Some (best_tile :: _) =>
          Continue (nodes ++ [pos best_tile], visited ∪ {[pos best_tile]})
      end
  end.

Definition DFSAgent_find_path (fuel : nat) (g : Grid) (start goal : coord)
    : outcome (list coord * gset coord) Path :=
  run_loop (DFS_body g goal) fuel ([start], {[start]}).

(** ** BranchAndBoundAgent.find_path *)

(** The dict [{"path": ..., "cost": ...}]. *)
Record BBEntry := mkBB { bb_path : list coord; bb_cost : Z }.

#[global] Instance BBEntry_eq_dec : EqDecision BBEntry.
Proof. solve_decision. Defined.

Definition BB_key (p : BBEntry) : Z * Z := (bb_cost p, Z.of_nat (length (bb_path p))).

Definition BB_body (g : Grid) (goal : coord)
    (nodes : list BBEntry) : step (list BBEntry) Path :=
  match nodes with
  | [] => Return []
  | first :: rest =>
      let best := py_min_by BB_key first rest in
      match py_remove best nodes with
      | None => Raise (ValueError "list.remove(x): x not in list")
      | Some nodes =>
          match last (bb_path best) with
          | None => Raise IndexError
          | Some current =>
              if decide (current = goal) then Return (bb_path best) else
              let '(r, c) := current in
              Continue
                (foldl (λ nodes neighbor,
                          if decide (pos neighbor ∈ bb_path best) then nodes
                          else nodes ++ [mkBB (bb_path best ++ [pos neighbor])
                                              (bb_cost best + cost neighbor)])
                       nodes (neighbors4 g r c))
          end
      end
  end.

Definition BranchAndBoundAgent_find_path (fuel : nat) (g : Grid) (start goal : coord)
    : outcome (list BBEntry) Path :=
  let '(r, c) := start in
  run_loop (BB_body g goal) fuel [mkBB [start] (cost (get g r c))].

(** ** AStar.find_path *)

(** The dict [{"path": ..., "gcost": ..., "hcost": ...}]. *)
Record ASEntry := mkAS { as_path : list coord; as_gcost : Z; as_hcost : Z }.

#[global] Instance ASEntry_eq_dec : EqDecision ASEntry.
Proof. solve_decision. Defined.

Definition AS_key (p : ASEntry) : Z * Z :=
  ((as_gcost p + as_hcost p)%Z, Z.of_nat (length (as_path p))).

Definition AS_body (g : Grid) (goal : coord)
    (nodes : list ASEntry) : step (list ASEntry) Path :=
  match nodes with
  | [] => Return []
  | first :: rest =>
      let best := py_min_by AS_key first rest in
      match py_remove best nodes with
      | None => Raise (ValueError "list.remove(x): x not in list")
      | Some nodes =>
          match last (as_path best) with
          | None => Raise IndexError
          | Some current =>
              if decide (current = goal) then Return (as_path best) else
              let '(r, c) := current in
              Continue
                (foldl (λ nodes neighbor,
                          if decide (pos neighbor ∈ as_path best) then nodes
                          else nodes ++ [mkAS (as_path best ++ [pos neighbor])
                                              (as_gcost best + cost neighbor)
                                              (manhattan (pos neighbor) goal)])
                       nodes (neighbors4 g r c))
          end
      end
  end.

Definition AStar_find_path (fuel : nat) (g : Grid) (start goal : coord)
    : outcome (list ASEntry) Path :=
  let '(r, c) := start in
  run_loop (AS_body g goal) fuel
    [mkAS [start] (cost (get g r c)) (manhattan start goal)].

(** ** The registry: AGENTS and create_agent *)

Inductive AgentClass := ExampleAgent | DFSAgent | BranchAndBoundAgent | AStar.

Record Agent := mkAgent { agent_class : AgentClass; name : string }.

(** Calling a class: its [__init__] hands its own name to [Agent.__init__]. *)
Definition construct (cls : AgentClass) : Agent :=
  mkAgent cls match cls with
              | ExampleAgent => "Example"
              | DFSAgent => "DFS"
              | BranchAndBoundAgent => "BranchAndBound"
              | AStar => "AStar"
              end.

Definition AGENTS : list (string * AgentClass) :=
  [("Example", ExampleAgent); ("DFS", DFSAgent);
   ("BranchAndBound", BranchAndBoundAgent); ("AStar", AStar)].

(** [sep.join(l)] *)
Fixpoint py_join (sep : string) (l : list string) : string :=
  match l with
  | [] => ""
  | x :: l' => match l' with [] => x | _ => x +:+ sep +:+ py_join sep l' end
  end.

(** The heap is the list of the agents constructed so far; a reference is
    an index into it, and constructing an agent appends one. *)
Definition create_agent (name : string) (heap : list Agent) : (exn + nat) * list Agent :=
  match dict_get AGENTS name with
  | None =>
      (inl (ValueError ("Unknown agent '" +:+ name +:+ "'. Available: "
                        +:+ py_join ", " (AGENTS.*1))), heap)
  | Some cls => (inr (length heap), heap ++ [construct cls])
  end.

(** ** Grids *)

Definition in_bounds (rows cols : nat) (p : coord) : bool :=
  (0 <=? p.1)%Z && (p.1 <? Z.of_nat rows)%Z && (0 <=? p.2)%Z && (p.2 <? Z.of_nat cols)%Z.

(** Modelled from the spec: the rectangular grid of [rows] by [cols]
    tiles, [tile_cost p] being the cost to enter [p]; [neighbors4] yields
    the orthogonally adjacent in-bounds tiles, looking in the directions
    [dirs] in turn (the contract fixes no order).  Tiles listed in [walls]
    are never yielded, so that no move enters them ("walled off"); an open
    grid has [walls = []]. *)
Definition rect_grid (rows cols : nat) (tile_cost : coord → Z)
    (walls : list coord) (dirs : list coord) : Grid :=
  {| neighbors4 r c :=
       (λ p, mkTile p (tile_cost p)) <$>
         filter (λ p, in_bounds rows cols p = true ∧ p ∉ walls)
                ((λ d : coord, (r + d.1, c + d.2)%Z) <$> dirs);
     get r c := mkTile (r, c) (tile_cost (r, c)) |}.

Definition four_dirs : list coord := [(-1, 0); (1, 0); (0, -1); (0, 1)]%Z.

(** The 3 by 3 grid all of whose tiles cost [u] to enter. *)
Definition uniform3 (u : Z) (dirs : list coord) : Grid :=
  rect_grid 3 3 (λ _, u) [] dirs.

(** Two rows of three tiles; entering the middle of the top row costs 1,
    every other tile is free. *)
Definition detour_grid : Grid :=
  rect_grid 2 3 (λ p, if decide (p = (0, 1)%Z) then 1%Z else 0%Z) [] four_dirs.

(** Two rows of three tiles of cost 1 whose middle column is walled. *)
Definition walled_grid : Grid :=
  rect_grid 2 3 (λ _, 1%Z) [(0, 1); (1, 1)]%Z four_dirs.

(** ** Well-formed grids, walks and routes *)

Definition cells (rows cols : nat) : list coord :=
  r ← seq 0 rows; c ← seq 0 cols; [(Z.of_nat r, Z.of_nat c)].

(** Orthogonally adjacent: one step along one axis. *)
Definition adjacent4 (a b : coord) : bool := (manhattan a b =? 1)%Z.

Definition tile_ok (rows cols : nat) (g : Grid) (p : coord) (t : Tile) : bool :=
  adjacent4 p (pos t) && in_bounds rows cols (pos t)
  && bool_decide (t = get g (pos t).1 (pos t).2).

(** What the agents rely on, checked tile by tile: [get] answers with the
    tile of the coordinate asked for, entry costs are not negative, and
    every tile that [neighbors4] yields is orthogonally adjacent, inside
    the grid and the tile [get] finds there.  [neighbors4] may leave
    adjacent tiles out (walls). *)
Definition grid_ok (rows cols : nat) (g : Grid) : bool :=
  forallb (λ p : coord,
             bool_decide (pos (get g p.1 p.2) = p)
             && (0 <=? cost (get g p.1 p.2))%Z
             && forallb (tile_ok rows cols g p) (neighbors4 g p.1 p.2))
          (cells rows cols).

(** Every tile costs at least [k] to enter. *)
Definition costs_ge (k : Z) (rows cols : nat) (g : Grid) : bool :=
  forallb (λ p : coord, (k <=? cost (get g p.1 p.2))%Z) (cells rows cols).

(** One move of an agent: [b] is among the neighbours the grid yields at [a]. *)
Definition grid_step (g : Grid) (a b : coord) : Prop :=
  b ∈ pos <$> neighbors4 g a.1 a.2.

#[global] Instance grid_step_dec g a b : Decision (grid_step g a b).
Proof. unfold grid_step. apply _. Defined.

Definition reachable (g : Grid) : coord → coord → Prop := rtc (grid_step g).

(** Consecutive elements of [l] are related by [R]. *)
Fixpoint chain {A} (R : A → A → Prop) (l : list A) : Prop :=
  match l with
  | a :: l' => match l' with b :: _ => R a b | [] => True end ∧ chain R l'
  | [] => True
  end.

#[global] Instance chain_dec {A} (R : A → A → Prop) `{∀ a b, Decision (R a b)} l :
  Decision (chain R l).
Proof.
  induction l as [|a [|b l] IH]; simpl; [apply _ .. |].
  simpl in IH. apply _.
Defined.

(** A simple route: from [start] to [goal] by grid moves, no coordinate twice. *)
Definition route (g : Grid) (start goal : coord) (p : Path) : Prop :=
  head p = Some start ∧ last p = Some goal ∧ NoDup p ∧ chain (grid_step g) p.

#[global] Instance route_dec g start goal p : Decision (route g start goal p).
Proof. unfold route. apply _. Defined.

(** Modelled from the spec: the total cost of a path is the cost of its
    moves, each move paying the entry cost of the tile it enters (the
    start tile is not entered). *)
Definition total_cost (g : Grid) (p : Path) : Z :=
  foldr Z.add 0%Z ((λ q : coord, cost (get g q.1 q.2)) <$> tail p).

(** ** Invariants and measures of the loops *)

(** The loop invariant of the depth-first agent. *)
Record DFS_inv (rows cols : nat) (g : Grid) (start goal : coord)
    (s : list coord * gset coord) : Prop := {
  dfs_nodup : NoDup s.1;
  dfs_nodes_visited : ∀ p, p ∈ s.1 → p ∈ s.2;
  dfs_visited_in : ∀ p, p ∈ s.2 → in_bounds rows cols p = true;
  dfs_head : s.1 = [] ∨ head s.1 = Some start;
  dfs_chain : chain (grid_step g) s.1;
  dfs_start : start ∈ s.2;
  (* a coordinate that left the stack has no unvisited neighbour *)
  dfs_closed : ∀ p q, p ∈ s.2 → p ∉ s.1 → grid_step g p q → q ∈ s.2;
  (* the goal is visited only as the top of the stack *)
  dfs_goal : goal ∈ s.2 → last s.1 = Some goal
}.

(** Every iteration of the depth-first loop lowers this by one. *)
Definition DFS_measure (rows cols : nat) (s : list coord * gset coord) : nat :=
  2 * (rows * cols - size s.2) + length s.1.

(** What the depth-first agent returns: nothing when the goal is out of
    reach, a route otherwise. *)
Definition DFS_post (g : Grid) (start goal : coord) (p : Path) : Prop :=
  (p = [] ∧ ¬ reachable g start goal) ∨ route g start goal p.

(** The loop body that branch-and-bound and A-star share, over the entry
    type [E] of the pool:
    [path] reads an entry's path, [key] is the selection key and
    [child best neighbor] the entry appended for a kept neighbour
    ([BB_body_eq] and [AS_body_eq] below). *)
Definition BF_body {E} `{EqDecision E} (path : E → Path) (key : E → Z * Z)
    (child : E → Tile → E) (g : Grid) (goal : coord)
    (nodes : list E) : step (list E) Path :=
  match nodes with
  | [] => Return []
  | first :: rest =>
      let best := py_min_by key first rest in
      match py_remove best nodes with
      | None => Raise (ValueError "list.remove(x): x not in list")
      | Some nodes =>
          match last (path best) with
          | None => Raise IndexError
          | Some current =>
              if decide (current = goal) then Return (path best) else
              Continue (nodes ++ (child best <$>
                          filter (λ neighbor, pos neighbor ∉ path best)
                                 (neighbors4 g current.1 current.2)))
          end
      end
  end.

(** The number of self-avoiding walks that extend [p] by at most [n] moves. *)
Fixpoint count_walks (g : Grid) (n : nat) (p : Path) : nat :=
  match n with
  | O => 1
  | S n' =>
      match last p with
      | None => 1
      | Some cur =>
          1 + sum_list_with (λ t, count_walks g n' (p ++ [pos t]))
                (filter (λ t, pos t ∉ p) (neighbors4 g cur.1 cur.2))
      end
  end.

Definition BF_weight {E} (path : E → Path) (rows cols : nat) (g : Grid) (e : E) : nat :=
  count_walks g (rows * cols - length (path e)) (path e).

(** A pool entry: a self-avoiding walk from [start] inside the grid, with
    the agent's own invariant [cost_inv] on its cost fields. *)
Definition BF_good {E} (path : E → Path) (cost_inv : E → Prop)
    (rows cols : nat) (g : Grid) (start : coord) (e : E) : Prop :=
  head (path e) = Some start ∧ NoDup (path e) ∧ chain (grid_step g) (path e) ∧
  Forall (λ p, in_bounds rows cols p = true) (path e) ∧ cost_inv e.

(** The pool holds, for every route, an entry that the route extends. *)
Definition BF_inv {E} (path : E → Path) (cost_inv : E → Prop)
    (rows cols : nat) (g : Grid) (start goal : coord) (nodes : list E) : Prop :=
  (∀ e, e ∈ nodes → BF_good path cost_inv rows cols g start e) ∧
  (∀ P, route g start goal P → ∃ e, e ∈ nodes ∧ path e `prefix_of` P).

Definition BF_post {E} (path : E → Path) (key : E → Z * Z) (cost_inv : E → Prop)
    (rows cols : nat) (g : Grid) (start goal : coord) (p : Path) : Prop :=
  (p = [] ∧ ∀ P, ¬ route g start goal P) ∨
  (∃ best, p = path best ∧ BF_good path cost_inv rows cols g start best ∧
           last (path best) = Some goal ∧
           ∀ P, route g start goal P →
                ∃ e, BF_good path cost_inv rows cols g start e ∧
                     path e `prefix_of` P ∧ key_lt (key e) (key best) = false).

Definition tile_cost_at (g : Grid) (q : coord) : Z := cost (get g q.1 q.2).

(** The entry costs of all the tiles of a walk, its first included: what
    branch-and-bound and A-star accumulate. *)
Definition walk_cost (g : Grid) (p : Path) : Z :=
  foldr Z.add 0%Z (tile_cost_at g <$> p).

Definition BB_child (best : BBEntry) (neighbor : Tile) : BBEntry :=
  mkBB (bb_path best ++ [pos neighbor]) (bb_cost best + cost neighbor).

Definition AS_child (goal : coord) (best : ASEntry) (neighbor : Tile) : ASEntry :=
  mkAS (as_path best ++ [pos neighbor]) (as_gcost best + cost neighbor)
       (manhattan (pos neighbor) goal).

(** ["cost"] is the cost of the tiles of ["path"]. *)
Definition BB_cost_inv (g : Grid) (e : BBEntry) : Prop :=
  bb_cost e = walk_cost g (bb_path e).

(** ["gcost"] likewise, and ["hcost"] is the distance left from the end
    of ["path"]. *)
Definition AS_cost_inv (g : Grid) (goal : coord) (e : ASEntry) : Prop :=
  as_gcost e = walk_cost g (as_path e) ∧
  ∀ cur, last (as_path e) = Some cur → as_hcost e = manhattan cur goal.

(** ** Cheapest routes *)

(** No route is cheaper. *)
Definition cheapest_route (g : Grid) (start goal : coord) (p : Path) : Prop :=
  route g start goal p ∧
  ∀ P, route g start goal P → (total_cost g p ≤ total_cost g P)%Z.

(** No route is cheaper, and none of the same cost is shorter. *)
Definition cheapest_shortest_route (g : Grid) (start goal : coord) (p : Path) : Prop :=
  route g start goal p ∧
  ∀ P, route g start goal P →
       (total_cost g p ≤ total_cost g P)%Z ∧
       (total_cost g p = total_cost g P → length p ≤ length P).

(** A greedy move: to a neighbour no other neighbour is nearer to the goal than. *)
Definition greedy_move (g : Grid) (goal a b : coord) : Prop :=
  grid_step g a b ∧ ∀ q, grid_step g a q → (manhattan b goal ≤ manhattan q goal)%Z.

Definition Example_inv (g : Grid) (start goal : coord) (s : list coord * nat) : Prop :=
  head s.1 = Some start ∧ chain (greedy_move g goal) s.1.

(** ** Grids where every tile costs the same *)

(** The tiles next to [(r, c)], costs left out. *)
Definition rect_neighbors (rows cols : nat) (walls dirs : list coord) (r c : Z) : list coord :=
  filter (λ p, in_bounds rows cols p = true ∧ p ∉ walls)
         ((λ d : coord, (r + d.1, c + d.2)%Z) <$> dirs).

(** From an entry keyed for cost 0 to the entry keyed for cost [u]. *)
Definition rekey (u : Z) (kt : (Z * Z) * Tile) : (Z * Z) * Tile :=
  ((u, kt.1.2), mkTile (pos kt.2) u).

Definition corner_route : Path := [(0, 0); (0, 1); (0, 2); (1, 2); (2, 2)]%Z.

Definition returns_length {S} (n : nat) (o : outcome S Path) : bool :=
  match o with
  | Returned p => bool_decide (length p = n)
  | _ => false
  end.

(** With free tiles and the directions [dirs]: the way along the top and
    down the right is a route, and the depth-first and the A-star agent
    return five coordinates. *)
Definition uniform3_check (dirs : list coord) : bool :=
  bool_decide (route (uniform3 0 dirs) (0, 0)%Z (2, 2)%Z corner_route)
  && returns_length 5 (DFSAgent_find_path 18 (uniform3 0 dirs) (0, 0)%Z (2, 2)%Z)
  && returns_length 5 (AStar_find_path 5 (uniform3 0 dirs) (0, 0)%Z (2, 2)%Z).

(** ** Vocabulary of the further properties *)

(** From every tile of the grid but the goal, some neighbour is nearer
    to the goal in Manhattan distance. *)
Definition greedy_progress (rows cols : nat) (g : Grid) (goal : coord) : bool :=
  forallb (λ p : coord,
             bool_decide (p = goal)
             || existsb (λ t, (manhattan (pos t) goal <? manhattan p goal)%Z)
                        (neighbors4 g p.1 p.2))
          (cells rows cols).

(** The loop invariant of the greedy agent under [greedy_progress]: every
    move so far has brought it one step nearer. *)
Definition Example_progress_inv (rows cols : nat) (start goal : coord)
    (s : list coord * nat) : Prop :=
  ∃ cur, last s.1 = Some cur ∧ in_bounds rows cols cur = true ∧
         (manhattan cur goal + Z.of_nat (length s.1) = manhattan start goal + 1)%Z.

Definition Example_distance (goal : coord) (s : list coord * nat) : nat :=
  match last s.1 with
  | Some cur => Z.to_nat (manhattan cur goal)
  | None => 0
  end.

(** The order [sorted] puts keyed entries in: keys do not decrease. *)
Definition key_le {A} (a b : (Z * Z) * A) : Prop := key_lt b.1 a.1 = false.

(** The two grids yield the same neighbours at every tile, possibly in
    another order. *)
Definition same_neighbors (rows cols : nat) (g1 g2 : Grid) : bool :=
  forallb (λ p : coord, bool_decide (neighbors4 g1 p.1 p.2 ≡ₚ neighbors4 g2 p.1 p.2))
          (cells rows cols).

(** * Properties *)

(** ** Bounded iteration *)

Section run_loop.

Context {S A : Type} (body : S → step S A).

Lemma run_loop_mono fuel fuel' s a :
  run_loop body fuel s = Returned a → fuel ≤ fuel' →
  run_loop body fuel' s = Returned a.
Proof.
  revert fuel' s. induction fuel as [|n IH]; intros [|m] s; simpl; try done; try lia.
  destruct (body s); try done. intros. apply IH; [done|lia].
Qed.

(** A loop invariant [I] that makes every return satisfy [Q]. *)
Lemma run_loop_invariant (I : S → Prop) (Q : A → Prop) :
  (∀ s, I s → match body s with
              | Continue s' => I s' | Return a => Q a | Raise _ => True
              end) →
  ∀ fuel s a, I s → run_loop body fuel s = Returned a → Q a.
Proof.
  intros Hbody. induction fuel as [|n IH]; intros s a Hs; simpl; [done|].
  specialize (Hbody s Hs). destruct (body s) as [s'|a'|e]; try done.
  - by apply IH.
  - by intros [= <-].
Qed.

(** A measure [m] that every iteration lowers, and no exception: the loop
    returns within [m s] further iterations. *)
Lemma run_loop_terminates (I : S → Prop) (m : S → nat) :
  (∀ s, I s → match body s with
              | Continue s' => I s' ∧ m s' < m s | Return _ => True | Raise _ => False
              end) →
  ∀ fuel s, I s → m s < fuel → ∃ a, run_loop body fuel s = Returned a.
Proof.
  intros Hbody. induction fuel as [|n IH]; intros s Hs Hm; simpl; [lia|].
  specialize (Hbody s Hs). destruct (body s) as [s'|a'|e]; try done.
  - destruct Hbody. apply IH; [done|lia].
  - by eexists.
Qed.

End run_loop.

(** ** The built-ins *)

Lemma key_lt_irrefl a : key_lt a a = false.
Proof. unfold key_lt. destruct a; simpl. lia. Qed.

Lemma key_lt_spec a b :
  key_lt a b = true ↔ (a.1 < b.1 ∨ (a.1 = b.1 ∧ a.2 < b.2))%Z.
Proof. unfold key_lt. destruct a, b; simpl. lia. Qed.

Lemma key_lt_false a b :
  key_lt a b = false ↔ (b.1 < a.1 ∨ (a.1 = b.1 ∧ b.2 ≤ a.2))%Z.
Proof. unfold key_lt. destruct a, b; simpl. lia. Qed.

Lemma py_min_by_spec {A} (key : A → Z * Z) first rest :
  py_min_by key first rest ∈ first :: rest ∧
  ∀ y, y ∈ first :: rest → key_lt (key y) (key (py_min_by key first rest)) = false.
Proof.
  unfold py_min_by. revert first. induction rest as [|x rest IH]; intros first; simpl.
  - split; [by left|]. intros y ->%list_elem_of_singleton. apply key_lt_irrefl.
  - destruct (IH (if key_lt (key x) (key first) then x else first)) as [Hin Hmin].
    set (b := foldl _ _ rest) in *. clearbody b.
    assert (∀ y, y ∈ rest → key_lt (key y) (key b) = false) as Hrest.
    { intros y Hy. apply Hmin. by right. }
    pose proof (Hmin _ (proj2 (elem_of_cons _ _ _) (or_introl eq_refl))) as Hm.
    clear IH Hmin. destruct (key_lt (key x) (key first)) eqn:Hx.
    + split.
      * apply elem_of_cons in Hin as [->|Hin]; apply elem_of_cons; right;
          apply elem_of_cons; [by left|by right].
      * intros y [->|[->|Hy]%elem_of_cons]%elem_of_cons; [|done|by apply Hrest].
        apply key_lt_spec in Hx. apply key_lt_false in Hm. apply key_lt_false. lia.
    + split.
      * apply elem_of_cons in Hin as [->|Hin]; apply elem_of_cons; [by left|].
        right. apply elem_of_cons. by right.
      * intros y [->|[->|Hy]%elem_of_cons]%elem_of_cons; [done| |by apply Hrest].
        apply key_lt_false in Hx. apply key_lt_false in Hm. apply key_lt_false. lia.
Qed.

(** [l.remove(x)] succeeds exactly when [x] is in [l], and then takes one
    occurrence of [x] away. *)
Lemma py_remove_perm {A} `{EqDecision A} (x : A) l :
  x ∈ l → ∃ l', py_remove x l = Some l' ∧ l ≡ₚ x :: l'.
Proof.
  induction l as [|y l IH]; simpl; [by intros ?%elem_of_nil|].
  intros Hx. destruct (decide (x = y)) as [->|Hne]; [by eexists|].
  apply elem_of_cons in Hx as [?|Hx]; [done|].
  destruct (IH Hx) as (l' & -> & Hperm). exists (y :: l'). split; [done|].
  rewrite Hperm at 1. apply Permutation_swap.
Qed.

Lemma py_remove_None {A} `{EqDecision A} (x : A) l :
  py_remove x l = None ↔ x ∉ l.
Proof.
  induction l as [|y l IH]; simpl.
  - split; [intros _; apply not_elem_of_nil|done].
  - rewrite not_elem_of_cons. destruct (decide (x = y)) as [->|Hne].
    + split; [done|]. by intros [? _].
    + rewrite fmap_None, IH. tauto.
Qed.

(** The body of the [for neighbor in ...] loops of branch-and-bound and
    A-star: the kept neighbours are appended in order. *)
Lemma foldl_append_filter {A B} (P : B → Prop) `{∀ b, Decision (P b)} (f : B → A) nodes l :
  foldl (λ nodes b, if decide (P b) then nodes else nodes ++ [f b]) nodes l
  = nodes ++ (f <$> filter (λ b, ¬ P b) l).
Proof.
  revert nodes. induction l as [|b l IH]; intros nodes; simpl.
  - by rewrite app_nil_r.
  - rewrite IH, filter_cons. destruct (decide (P b)), (decide (¬ P b)); try tauto.
    by rewrite fmap_cons, <-app_assoc.
Qed.

Lemma insert_by_key_perm {A} (x : (Z * Z) * A) l : insert_by_key x l ≡ₚ x :: l.
Proof.
  induction l as [|y l IH]; simpl; [done|].
  destruct (key_lt y.1 x.1); [|done]. rewrite IH. apply Permutation_swap.
Qed.

Lemma sort_keyed_perm {A} (l : list ((Z * Z) * A)) : sort_keyed l ≡ₚ l.
Proof.
  induction l as [|x l IH]; simpl; [done|].
  by rewrite insert_by_key_perm, IH.
Qed.

Lemma py_sorted_perm {A} (key : A → option (Z * Z)) l l' :
  py_sorted key l = Some l' → l' ≡ₚ l.
Proof.
  unfold py_sorted. intros Hs.
  destruct (mapM _ l) as [keyed|] eqn:Hk; simplify_eq/=.
  rewrite sort_keyed_perm. apply mapM_Some in Hk.
  induction Hk as [|x [k y] l keyed Hx _ IH]; simpl; [done|].
  apply bind_Some in Hx as (k' & _ & [= <- <-]). by f_equiv.
Qed.

Lemma py_sorted_is_Some {A} (key : A → option (Z * Z)) l :
  Forall (λ x, is_Some (key x)) l → is_Some (py_sorted key l).
Proof.
  intros Hl. unfold py_sorted.
  assert (is_Some (mapM (λ x, k ← key x; Some (k, x)) l)) as [keyed ->]; [|by eexists].
  apply mapM_is_Some. eapply Forall_impl; [done|].
  intros x [k Hk]. simpl. rewrite Hk. by eexists.
Qed.

(** ** Grids *)

Lemma elem_of_cells rows cols p : p ∈ cells rows cols ↔ in_bounds rows cols p = true.
Proof.
  unfold cells, in_bounds. destruct p as [r c]; simpl. split.
  - intros (r' & Hc & Hr)%list_elem_of_bind.
    apply list_elem_of_bind in Hc as (c' & Hc & Hc').
    apply list_elem_of_singleton in Hc. simplify_eq.
    apply elem_of_seq in Hr, Hc'. lia.
  - intros Hb. apply list_elem_of_bind. exists (Z.to_nat r). split.
    + apply list_elem_of_bind. exists (Z.to_nat c). split.
      * apply list_elem_of_singleton. f_equal; lia.
      * apply elem_of_seq. lia.
    + apply elem_of_seq. lia.
Qed.

Lemma length_cells rows cols : length (cells rows cols) = rows * cols.
Proof.
  unfold cells.
  assert (∀ (r : nat) k, length (seq k cols ≫= λ c, [(Z.of_nat r, Z.of_nat c)]) = cols) as Hrow.
  { intros r. induction cols as [|m IH]; intros k; csimpl; [done|]. by rewrite IH. }
  assert (∀ k, length (seq k rows ≫= λ r,
                 seq 0 cols ≫= λ c, [(Z.of_nat r, Z.of_nat c)]) = rows * cols) as Hall;
    [|by apply Hall].
  induction rows as [|n IH]; intros k; csimpl; [done|].
  by rewrite length_app, Hrow, IH.
Qed.

(** No coordinate twice and all inside the grid: at most [rows * cols] of them. *)
Lemma NoDup_in_bounds_length rows cols (l : list coord) :
  NoDup l → Forall (λ p, in_bounds rows cols p = true) l → length l ≤ rows * cols.
Proof.
  intros Hnd Hin. rewrite <-length_cells. apply submseteq_length.
  apply NoDup_submseteq; [done|].
  intros p Hp. apply elem_of_cells. by eapply Forall_forall in Hin.
Qed.

Section grid_ok.

Context (rows cols : nat) (g : Grid) (Hok : grid_ok rows cols g = true).

Lemma grid_ok_cell p :
  in_bounds rows cols p = true →
  pos (get g p.1 p.2) = p ∧ (0 ≤ cost (get g p.1 p.2))%Z ∧
  ∀ t, t ∈ neighbors4 g p.1 p.2 →
       adjacent4 p (pos t) = true ∧ in_bounds rows cols (pos t) = true ∧
       t = get g (pos t).1 (pos t).2.
Proof.
  intros Hp%elem_of_cells. unfold grid_ok in Hok.
  rewrite forallb_forall in Hok. apply list_elem_of_In, Hok in Hp.
  apply andb_prop in Hp as [[Hpos Hcost]%andb_prop Hnb].
  apply bool_decide_eq_true in Hpos. split; [done|]. split; [lia|].
  intros t Ht. rewrite forallb_forall in Hnb. apply list_elem_of_In, Hnb in Ht.
  unfold tile_ok in Ht. apply andb_prop in Ht as [[? ?]%andb_prop Hg].
  by apply bool_decide_eq_true in Hg.
Qed.

Lemma grid_step_ok a b :
  in_bounds rows cols a = true → grid_step g a b →
  adjacent4 a b = true ∧ in_bounds rows cols b = true.
Proof.
  intros Ha (t & -> & Ht)%list_elem_of_fmap.
  destruct (grid_ok_cell a Ha) as (_ & _ & Hn). by destruct (Hn t Ht) as (? & ? & _).
Qed.

Lemma neighbor_cost a t :
  in_bounds rows cols a = true → t ∈ neighbors4 g a.1 a.2 →
  cost t = cost (get g (pos t).1 (pos t).2).
Proof.
  intros Ha Ht. destruct (grid_ok_cell a Ha) as (_ & _ & Hn).
  destruct (Hn t Ht) as (_ & _ & Heq). by rewrite <-Heq.
Qed.

Lemma reachable_in_bounds a b :
  in_bounds rows cols a = true → reachable g a b → in_bounds rows cols b = true.
Proof.
  intros Ha Hr. induction Hr as [|a b c Hab _ IH]; [done|].
  apply IH. by eapply grid_step_ok.
Qed.

End grid_ok.

(** ** Walks *)

Lemma chain_snoc {A} (R : A → A → Prop) l b :
  chain R (l ++ [b]) ↔ chain R l ∧ ∀ a, last l = Some a → R a b.
Proof.
  induction l as [|a [|a' l] IH]; simpl in *.
  - naive_solver.
  - naive_solver.
  - rewrite IH. naive_solver.
Qed.

Lemma chain_impl {A} (R R' : A → A → Prop) (P : A → Prop) l :
  (∀ a b, P a → R a b → R' a b ∧ P b) →
  (∀ a, head l = Some a → P a) → chain R l → chain R' l ∧ Forall P l.
Proof.
  intros HR. induction l as [|a [|b l] IH]; simpl in *.
  - done.
  - intros Ha _. split; [done|]. constructor; [|done]. by apply Ha.
  - intros Ha [Hab Hc]. destruct (HR a b (Ha a eq_refl) Hab) as [? ?].
    destruct IH as [? ?]; [naive_solver|done|]. split; [done|].
    constructor; [|done]. by apply Ha.
Qed.

Lemma chain_removelast {A} (R : A → A → Prop) l : chain R l → chain R (removelast l).
Proof.
  destruct (decide (l = [])) as [->|Hne]; [done|].
  destruct (exists_last Hne) as (l' & a & ->).
  rewrite removelast_last. rewrite chain_snoc. tauto.
Qed.

Lemma chain_reachable g (p : Path) a b :
  chain (grid_step g) p → head p = Some a → last p = Some b → reachable g a b.
Proof.
  revert a. induction p as [|x [|y p] IH]; intros a Hc Hh Hl; simplify_eq/=.
  - apply rtc_refl.
  - destruct Hc as [Hxy Hc]. eapply rtc_l; [done|]. by apply IH.
Qed.

(** ** Depth-first search *)

Lemma DFS_key_is_Some r c t :
  adjacent4 (r, c) (pos t) = true → is_Some (DFS_key r c t).
Proof.
  unfold adjacent4, manhattan, DFS_key. destruct t as [[r' c'] k]; simpl. intros H.
  assert ((r' - r = 0 ∧ c' - c = 1) ∨ (r' - r = 1 ∧ c' - c = 0) ∨
          (r' - r = 0 ∧ c' - c = -1) ∨ (r' - r = -1 ∧ c' - c = 0))%Z
    as [[-> ->]|[[-> ->]|[[-> ->]|[-> ->]]]] by lia; by eexists.
Qed.

Section DFS.

Context (rows cols : nat) (g : Grid) (start goal : coord).

Context (Hok : grid_ok rows cols g = true).

Context (Hstart : in_bounds rows cols start = true).

Local Abbreviation DFS_inv := (DFS_inv rows cols g start goal).

Local Abbreviation DFS_measure := (DFS_measure rows cols).

Local Abbreviation DFS_post := (DFS_post g start goal).

Lemma visited_size (visited : gset coord) :
  (∀ p, p ∈ visited → in_bounds rows cols p = true) → size visited ≤ rows * cols.
Proof.
  intros Hin. unfold size, set_size; simpl.
  apply NoDup_in_bounds_length; [apply NoDup_elements|].
  apply Forall_forall. intros p Hp. apply Hin. by apply elem_of_elements.
Qed.

Lemma DFS_init : DFS_inv ([start], {[start]}).
Proof.
  split; simpl.
  - apply NoDup_singleton.
  - intros p ->%list_elem_of_singleton. set_solver.
  - intros p ->%elem_of_singleton. done.
  - by right.
  - done.
  - set_solver.
  - intros p q ->%elem_of_singleton Hp. destruct Hp. by left.
  - by intros ->%elem_of_singleton.
Qed.

Lemma DFS_body_spec s :
  DFS_inv s →
  match DFS_body g goal s with
  | Continue s' => DFS_inv s' ∧ DFS_measure s' < DFS_measure s
  | Return p => DFS_post p
  | Raise _ => False
  end.
Proof.
  destruct s as [nodes visited].
  intros [Hnd Hnv Hvin Hhd Hch Hst Hcl Hgoal]; simpl in *.
  unfold DFS_body. destruct (last nodes) as [cur|] eqn:Hlast.
  2: { apply last_None in Hlast as ->. left. split; [done|]. intros Hr.
       assert (∀ a b, reachable g a b → a ∈ visited → b ∈ visited) as Hall.
       { intros a b Hab. induction Hab as [|a b c Hab _ IH]; [done|].
         intros Ha. apply IH. eapply Hcl; [done| |done]. apply not_elem_of_nil. }
       by apply Hall, Hgoal in Hr. }
  destruct (decide (cur = goal)) as [->|Hne].
  { right. unfold route. split_and!; try done. destruct Hhd as [->|]; done. }
  destruct cur as [r c].
  assert (in_bounds rows cols (r, c) = true) as Hcur.
  { apply Hvin, Hnv. by apply last_Some_elem_of. }
  destruct (grid_ok_cell rows cols g Hok (r, c) Hcur) as (_ & _ & Hnb); simpl in Hnb.
  destruct (py_sorted _ _) as [sorted|] eqn:Hsorted.
  2: { eapply eq_None_not_Some; [done|]. apply py_sorted_is_Some.
       apply Forall_forall. intros t [_ Ht]%list_elem_of_filter.
       apply DFS_key_is_Some. by apply Hnb. }
  apply py_sorted_perm in Hsorted.
  apply last_Some in Hlast as [nodes' ->].
  destruct sorted as [|best_tile rest].
  - (* backtrack *)
    apply Permutation_nil_l in Hsorted.
    rewrite removelast_last.
    split.
    + split; simpl.
      * by apply NoDup_app in Hnd as (Hnd & _ & _).
      * intros p Hp. apply Hnv, elem_of_app. by left.
      * done.
      * destruct nodes' as [|x l]; [by left|right]. by destruct Hhd.
      * by apply chain_snoc in Hch as [Hch _].
      * done.
      * intros p q Hp Hpn Hpq. destruct (decide (p = (r, c))) as [->|Hpc].
        -- apply list_elem_of_fmap in Hpq as (t & -> & Ht).
           destruct (decide (pos t ∈ visited)) as [|Hnv']; [done|].
           assert (t ∈ filter (λ tile, pos tile ∉ visited) (neighbors4 g r c)) as Hin
             by by apply list_elem_of_filter.
           rewrite <-Hsorted in Hin. by apply elem_of_nil in Hin.
        -- eapply Hcl; [done| |done].
           intros [?|?%list_elem_of_singleton]%elem_of_app; done.
      * intros Hg. by apply Hgoal in Hg as [= <-].
    + unfold DFS_measure; simpl. rewrite length_app; simpl. lia.
  - (* push the best unvisited neighbour *)
    assert (best_tile ∈ filter (λ tile, pos tile ∉ visited) (neighbors4 g r c)) as Hbest.
    { rewrite <-Hsorted. by left. }
    apply list_elem_of_filter in Hbest as [Hfresh Hbest].
    destruct (Hnb _ Hbest) as (_ & Hbin & _).
    assert (size (visited ∪ {[pos best_tile]}) = S (size visited)) as Hsize.
    { rewrite size_union by set_solver. rewrite size_singleton. lia. }
    split.
    + split; simpl.
      * apply NoDup_app. split_and!; [done| |apply NoDup_singleton].
        intros p Hp ->%list_elem_of_singleton. by apply Hfresh, Hnv.
      * intros p [Hp| ->%list_elem_of_singleton]%elem_of_app; [|set_solver].
        apply elem_of_union. left. by apply Hnv.
      * intros p [Hp| ->%elem_of_singleton]%elem_of_union; [by apply Hvin|done].
      * right. destruct Hhd as [Hnil|Hhd]; [by destruct nodes'|].
        by destruct nodes'.
      * apply chain_snoc. split; [done|]. rewrite last_snoc. intros a [= <-].
        apply list_elem_of_fmap. by exists best_tile.
      * set_solver.
      * intros p q [Hp| ->%elem_of_singleton]%elem_of_union Hpn Hpq.
        -- apply elem_of_union. left. eapply Hcl; [done| |done].
           intros Hin. apply Hpn, elem_of_app. by left.
        -- destruct Hpn. apply elem_of_app. right. by left.
      * rewrite last_snoc. intros [Hg| ->%elem_of_singleton]%elem_of_union; [|done].
        by apply Hgoal in Hg as [= <-].
    + unfold DFS_measure; simpl. rewrite Hsize, length_app; simpl.
      assert (size (visited ∪ {[pos best_tile]}) ≤ rows * cols); [|lia].
      apply visited_size.
      intros p [Hp| ->%elem_of_singleton]%elem_of_union; [by apply Hvin|done].
Qed.

(** Whatever the bound, a returned path is right. *)
Lemma DFS_returned fuel p :
  DFSAgent_find_path fuel g start goal = Returned p → DFS_post p.
Proof.
  apply (run_loop_invariant _ DFS_inv DFS_post); [|apply DFS_init].
  intros s Hs. pose proof (DFS_body_spec s Hs) as Hb.
  destruct (DFS_body g goal s); tauto.
Qed.

(** Twice the number of tiles is bound enough. *)
Lemma DFS_terminates fuel :
  2 * (rows * cols) ≤ fuel → ∃ p, DFSAgent_find_path fuel g start goal = Returned p.
Proof.
  intros Hfuel.
  apply (run_loop_terminates _ DFS_inv DFS_measure); [|apply DFS_init|].
  - intros s Hs. pose proof (DFS_body_spec s Hs) as Hb.
    destruct (DFS_body g goal s); tauto.
  - assert (1 ≤ rows * cols).
    { rewrite <-(size_singleton (C:=gset coord) start). apply visited_size.
      by intros p ->%elem_of_singleton. }
    unfold DFS_measure. cbn [fst snd length]. rewrite size_singleton. lia.
Qed.

End DFS.

(** ** Pool search: what branch-and-bound and A-star share *)

Lemma chain_app {A} (R : A → A → Prop) l1 l2 :
  chain R (l1 ++ l2) ↔
  chain R l1 ∧ chain R l2 ∧ ∀ a b, last l1 = Some a → head l2 = Some b → R a b.
Proof.
  induction l1 as [|a [|a' l1] IH]; simpl in *.
  - naive_solver.
  - destruct l2; naive_solver.
  - rewrite IH. naive_solver.
Qed.

Lemma sum_list_with_fmap {A B} (f : B → nat) (h : A → B) l :
  sum_list_with f (h <$> l) = sum_list_with (f ∘ h) l.
Proof. induction l; simpl; [done|]. by f_equal. Qed.

Lemma sum_list_with_ext {A} (f f' : A → nat) l :
  (∀ x, x ∈ l → f x = f' x) → sum_list_with f l = sum_list_with f' l.
Proof.
  induction l as [|x l IH]; simpl; [done|]. intros Hf.
  rewrite IH, (Hf x); [done|by left|]. intros y Hy. apply Hf. by right.
Qed.

Section best_first.

Context {E : Type} `{EqDecision E}.

Context (path : E → Path) (key : E → Z * Z) (child : E → Tile → E).

Context (cost_inv : E → Prop).

Context (rows cols : nat) (g : Grid) (start goal : coord).

Context (Hok : grid_ok rows cols g = true).

Context (Hpath_child : ∀ e t, path (child e t) = path e ++ [pos t]).

Context (Hcost_child : ∀ e t cur,
  BF_good path cost_inv rows cols g start e → last (path e) = Some cur →
  t ∈ neighbors4 g cur.1 cur.2 → pos t ∉ path e → cost_inv (child e t)).

Local Abbreviation good := (BF_good path cost_inv rows cols g start).

Local Abbreviation weight := (BF_weight path rows cols g).

Local Abbreviation expand best cur :=
  (child best <$> filter (λ neighbor, pos neighbor ∉ path best) (neighbors4 g cur.1 cur.2)).

Lemma good_child e t cur :
  good e → last (path e) = Some cur → t ∈ neighbors4 g cur.1 cur.2 →
  pos t ∉ path e → good (child e t).
Proof.
  intros He Hlast Ht Hfresh. pose proof He as (Hhd & Hnd & Hch & Hin & Hc).
  assert (in_bounds rows cols cur = true) as Hcur.
  { eapply Forall_forall in Hin; [done|]. by apply last_Some_elem_of. }
  destruct (grid_ok_cell rows cols g Hok cur Hcur) as (_ & _ & Hnb).
  destruct (Hnb t Ht) as (_ & Htin & _).
  unfold BF_good. rewrite Hpath_child. split_and!.
  - destruct (path e); by simplify_eq/=.
  - apply NoDup_app. split_and!; [done| |apply NoDup_singleton].
    by intros p Hp ->%list_elem_of_singleton.
  - apply chain_snoc. split; [done|]. intros a Ha. simplify_eq.
    apply list_elem_of_fmap. by exists t.
  - apply Forall_app. split; [done|]. by apply Forall_singleton.
  - by eapply Hcost_child.
Qed.

(** Expanding an entry trades its weight for that of its children, less one. *)
Lemma weight_expand e cur :
  good e → last (path e) = Some cur →
  weight e = 1 + sum_list_with weight (expand e cur).
Proof.
  intros He Hlast. pose proof He as (Hhd & Hnd & Hch & Hin & Hc).
  unfold BF_weight at 1.
  destruct (rows * cols - length (path e)) as [|n] eqn:Hn; simpl.
  - assert (filter (λ t, pos t ∉ path e) (neighbors4 g cur.1 cur.2) = []) as ->; [|done].
    destruct (filter _ _) as [|t l] eqn:Hf; [done|exfalso].
    assert (t ∈ filter (λ t, pos t ∉ path e) (neighbors4 g cur.1 cur.2)) as Ht
      by (rewrite Hf; by left).
    apply list_elem_of_filter in Ht as [Hfresh Ht].
    destruct (good_child e t cur He Hlast Ht Hfresh) as (_ & Hnd' & _ & Hin' & _).
    pose proof (NoDup_in_bounds_length rows cols _ Hnd' Hin') as Hlen.
    rewrite Hpath_child, length_app in Hlen. simpl in Hlen. lia.
  - rewrite Hlast. f_equal. rewrite sum_list_with_fmap.
    apply sum_list_with_ext. intros t _. unfold BF_weight; simpl.
    rewrite Hpath_child, length_app; simpl.
    by replace (rows * cols - (length (path e) + 1)) with n by lia.
Qed.

Lemma BF_body_spec nodes :
  BF_inv path cost_inv rows cols g start goal nodes →
  match BF_body path key child g goal nodes with
  | Continue nodes' =>
      BF_inv path cost_inv rows cols g start goal nodes' ∧
      sum_list_with weight nodes' < sum_list_with weight nodes
  | Return p => BF_post path key cost_inv rows cols g start goal p
  | Raise _ => False
  end.
Proof.
  intros [Hgood Hcover]. unfold BF_body.
  destruct nodes as [|first rest].
  { left. split; [done|]. intros P (e & He & _)%Hcover. by apply elem_of_nil in He. }
  destruct (py_min_by_spec key first rest) as [Hbest Hmin].
  set (best := py_min_by key first rest) in *. clearbody best.
  set (nodes := first :: rest) in *. clearbody nodes.
  pose proof (Hgood best Hbest) as Hb. pose proof Hb as (Hhd & Hnd & Hch & Hin & Hc).
  destruct (last (path best)) as [current|] eqn:Hlast.
  2: { apply last_None in Hlast. by rewrite Hlast in Hhd. }
  destruct (py_remove_perm best nodes Hbest) as (nodes' & -> & Hperm).
  destruct (decide (current = goal)) as [->|Hne].
  { right. exists best. split_and!; try done.
    intros P (e & He & Hpre)%Hcover. exists e. split_and!; auto. }
  split; [split|].
  - intros e [He|He]%elem_of_app.
    + apply Hgood. rewrite Hperm. by right.
    + apply list_elem_of_fmap in He as (t & -> & [Hfresh Ht]%list_elem_of_filter).
      by eapply good_child.
  - intros P HP. destruct (Hcover P HP) as (e & He & Hpre).
    destruct (decide (e = best)) as [->|Hneq].
    + destruct Hpre as [k ->]. destruct HP as (_ & HPl & HPnd & HPch).
      destruct k as [|x k].
      { rewrite app_nil_r in HPl. congruence. }
      apply chain_app in HPch as (_ & _ & Hstep).
      specialize (Hstep current x Hlast eq_refl).
      apply list_elem_of_fmap in Hstep as (t & -> & Ht).
      apply NoDup_app in HPnd as (_ & Hfr & _).
      exists (child best t). split.
      * apply elem_of_app. right. apply list_elem_of_fmap. exists t. split; [done|].
        apply list_elem_of_filter. split; [|done].
        intros Hin'. apply (Hfr _ Hin'). by left.
      * rewrite Hpath_child. exists k. by rewrite <-app_assoc.
    + exists e. split; [|done]. apply elem_of_app. left.
      rewrite Hperm in He. by apply elem_of_cons in He as [?|?].
  - rewrite Hperm. rewrite sum_list_with_app; simpl.
    rewrite (weight_expand best current); [lia|done..].
Qed.

(** From the one-entry pool the search returns, within as many iterations
    as there are self-avoiding walks from [start]. *)
Lemma BF_run e0 :
  in_bounds rows cols start = true → path e0 = [start] → cost_inv e0 →
  ∃ p, BF_post path key cost_inv rows cols g start goal p ∧
       ∀ fuel, count_walks g (rows * cols - 1) [start] < fuel →
               run_loop (BF_body path key child g goal) fuel [e0] = Returned p.
Proof.
  intros Hstart He0 Hc0.
  assert (BF_inv path cost_inv rows cols g start goal [e0]) as Hinit.
  { split.
    - intros e ->%list_elem_of_singleton. unfold BF_good. rewrite He0.
      split_and!; try done; [apply NoDup_singleton|by apply Forall_singleton].
    - intros P (Hhd & _). exists e0. split; [by left|]. rewrite He0.
      apply head_Some in Hhd as [k ->]. by exists k. }
  assert (sum_list_with weight [e0] = count_walks g (rows * cols - 1) [start]) as Hm.
  { simpl. unfold BF_weight. rewrite He0. simpl. lia. }
  assert (∀ nodes, BF_inv path cost_inv rows cols g start goal nodes →
            match BF_body path key child g goal nodes with
            | Continue nodes' => BF_inv path cost_inv rows cols g start goal nodes' ∧
                                 sum_list_with weight nodes' < sum_list_with weight nodes
            | Return _ => True | Raise _ => False
            end) as Hterm.
  { intros nodes Hn. pose proof (BF_body_spec nodes Hn) as Hb.
    by destruct (BF_body path key child g goal nodes). }
  destruct (run_loop_terminates _ _ _ Hterm
              (S (count_walks g (rows * cols - 1) [start])) [e0] Hinit) as [p Hp]; [lia|].
  exists p. split.
  - eapply (run_loop_invariant _ (BF_inv path cost_inv rows cols g start goal));
      [|exact Hinit|exact Hp].
    intros nodes Hn. pose proof (BF_body_spec nodes Hn) as Hb.
    destruct (BF_body path key child g goal nodes); tauto.
  - intros fuel Hfuel. eapply run_loop_mono; [exact Hp|lia].
Qed.

Lemma BF_good_route e :
  good e → last (path e) = Some goal → route g start goal (path e).
Proof. intros (? & ? & ? & _) ?. by unfold route. Qed.

End best_first.

Lemma run_loop_ext {S A} (body body' : S → step S A) fuel s :
  (∀ s, body s = body' s) → run_loop body fuel s = run_loop body' fuel s.
Proof.
  intros Hb. revert s. induction fuel as [|n IH]; intros s; simpl; [done|].
  rewrite Hb. by destruct (body' s).
Qed.

(** ** Costs of walks *)

Lemma total_cost_walk_cost g p : total_cost g p = walk_cost g (tail p).
Proof. done. Qed.

Lemma walk_cost_app g p k : walk_cost g (p ++ k) = (walk_cost g p + walk_cost g k)%Z.
Proof.
  unfold walk_cost. induction p as [|x p IH]; csimpl; [done|]. rewrite IH. lia.
Qed.

Lemma walk_cost_head g start p :
  head p = Some start → walk_cost g p = (tile_cost_at g start + total_cost g p)%Z.
Proof. destruct p; intros; by simplify_eq/=. Qed.

Lemma walk_cost_nonneg rows cols g p :
  grid_ok rows cols g = true → Forall (λ q, in_bounds rows cols q = true) p →
  (0 ≤ walk_cost g p)%Z.
Proof.
  intros Hok. induction 1 as [|q p Hq _ IH]; simpl; [done|].
  destruct (grid_ok_cell rows cols g Hok q Hq) as (_ & ? & _).
  unfold walk_cost in *; csimpl. unfold tile_cost_at at 1. lia.
Qed.

Lemma walk_in_bounds rows cols g (p : Path) a :
  grid_ok rows cols g = true → in_bounds rows cols a = true → head p = Some a →
  chain (grid_step g) p →
  chain (λ a b, adjacent4 a b = true) p ∧ Forall (λ q, in_bounds rows cols q = true) p.
Proof.
  intros Hok Ha Hhd. apply chain_impl.
  - intros x y Hx Hxy. by eapply grid_step_ok.
  - intros x Hx. by simplify_eq.
Qed.

(** ** Branch-and-bound and A-star as pool searches *)

Lemma BB_body_eq g goal nodes :
  BB_body g goal nodes = BF_body bb_path BB_key BB_child g goal nodes.
Proof.
  unfold BB_body, BF_body. destruct nodes as [|first rest]; [done|].
  cbv zeta. destruct (py_remove _ _) as [nodes|]; [|done].
  destruct (last _) as [[r c]|]; [|done].
  destruct (decide _); [done|]. by rewrite foldl_append_filter.
Qed.

Lemma AS_body_eq g goal nodes :
  AS_body g goal nodes = BF_body as_path AS_key (AS_child goal) g goal nodes.
Proof.
  unfold AS_body, BF_body. destruct nodes as [|first rest]; [done|].
  cbv zeta. destruct (py_remove _ _) as [nodes|]; [|done].
  destruct (last _) as [[r c]|]; [|done].
  destruct (decide _); [done|]. by rewrite foldl_append_filter.
Qed.

Lemma costs_ge_cell k rows cols g p :
  costs_ge k rows cols g = true → in_bounds rows cols p = true →
  (k ≤ tile_cost_at g p)%Z.
Proof.
  unfold costs_ge. rewrite forallb_forall. intros Hall Hp%elem_of_cells.
  apply list_elem_of_In, Hall in Hp. unfold tile_cost_at. lia.
Qed.

Lemma manhattan_refl a : manhattan a a = 0%Z.
Proof. unfold manhattan. lia. Qed.

Lemma manhattan_step a b goal :
  adjacent4 a b = true → (manhattan a goal ≤ 1 + manhattan b goal)%Z.
Proof. unfold adjacent4, manhattan. destruct a, b, goal; simpl. lia. Qed.

(** Where every tile costs at least 1 to enter, the Manhattan distance
    never overestimates the cost of what is left of a walk. *)
Lemma manhattan_le_walk_cost rows cols g goal k cur :
  grid_ok rows cols g = true → costs_ge 1 rows cols g = true →
  in_bounds rows cols cur = true → chain (grid_step g) (cur :: k) →
  last (cur :: k) = Some goal → (manhattan cur goal ≤ walk_cost g k)%Z.
Proof.
  intros Hok Hge. revert cur. induction k as [|x k IH]; intros cur Hcur Hch Hl.
  - simplify_eq/=. by rewrite manhattan_refl.
  - destruct Hch as [Hstep Hch]. rewrite last_cons_cons in Hl.
    destruct (grid_step_ok rows cols g Hok cur x Hcur Hstep) as [Hadj Hx].
    specialize (IH x Hx Hch Hl).
    pose proof (manhattan_step cur x goal Hadj).
    pose proof (costs_ge_cell 1 rows cols g x Hge Hx).
    change (walk_cost g (x :: k)) with (tile_cost_at g x + walk_cost g k)%Z. lia.
Qed.

Section pool_agents.

Context (rows cols : nat) (g : Grid) (start goal : coord).

Context (Hok : grid_ok rows cols g = true).

Context (Hstart : in_bounds rows cols start = true).

Lemma BB_cost_child e t cur :
  BF_good bb_path (BB_cost_inv g) rows cols g start e → last (bb_path e) = Some cur →
  t ∈ neighbors4 g cur.1 cur.2 → pos t ∉ bb_path e → BB_cost_inv g (BB_child e t).
Proof.
  intros (_ & _ & _ & Hin & Hc) Hlast Ht _. unfold BB_cost_inv in *; simpl.
  rewrite walk_cost_app, Hc. f_equal. unfold walk_cost; simpl. unfold tile_cost_at.
  rewrite <-(neighbor_cost rows cols g Hok cur t); [lia| |done].
  eapply Forall_forall in Hin; [done|]. by apply last_Some_elem_of.
Qed.

Lemma AS_cost_child e t cur :
  BF_good as_path (AS_cost_inv g goal) rows cols g start e → last (as_path e) = Some cur →
  t ∈ neighbors4 g cur.1 cur.2 → pos t ∉ as_path e → AS_cost_inv g goal (AS_child goal e t).
Proof.
  intros (_ & _ & _ & Hin & Hc & _) Hlast Ht _. unfold AS_cost_inv in *; simpl. split.
  - rewrite walk_cost_app, Hc. f_equal. unfold walk_cost; simpl. unfold tile_cost_at.
    rewrite <-(neighbor_cost rows cols g Hok cur t); [lia| |done].
    eapply Forall_forall in Hin; [done|]. by apply last_Some_elem_of.
  - intros cur'. rewrite last_snoc. by intros [= <-].
Qed.

(** What a route that extends a pool entry adds to it. *)
Lemma prefix_route_cost (p P : Path) :
  head p = Some start → p `prefix_of` P → route g start goal P →
  ∃ k, P = p ++ k ∧ (0 ≤ walk_cost g k)%Z ∧
       walk_cost g P = (walk_cost g p + walk_cost g k)%Z ∧
       length P = length p + length k.
Proof.
  intros Hhd [k ->] (HPh & _ & _ & HPc). exists k.
  destruct (walk_in_bounds rows cols g _ start Hok Hstart HPh HPc) as [_ Hin].
  apply Forall_app in Hin as [_ Hin].
  split_and!; [done|by eapply walk_cost_nonneg|apply walk_cost_app|apply length_app].
Qed.

Lemma BB_find_path_spec :
  ∃ p, (∀ fuel, count_walks g (rows * cols - 1) [start] < fuel →
                BranchAndBoundAgent_find_path fuel g start goal = Returned p) ∧
       ((p = [] ∧ ∀ P, ¬ route g start goal P) ∨ cheapest_shortest_route g start goal p).
Proof.
  destruct (BF_run bb_path BB_key BB_child (BB_cost_inv g) rows cols g start goal Hok
              (λ _ _, eq_refl) BB_cost_child
              (mkBB [start] (cost (get g start.1 start.2))) Hstart eq_refl)
    as (p & Hpost & Hrun).
  { unfold BB_cost_inv, walk_cost; simpl. unfold tile_cost_at. lia. }
  exists p. split.
  - intros fuel Hfuel. unfold BranchAndBoundAgent_find_path. destruct start as [r c].
    rewrite (run_loop_ext _ _ _ _ (BB_body_eq g goal)). by apply Hrun.
  - destruct Hpost as [?|(best & -> & Hb & Hlast & Hmin)]; [by left|right].
    pose proof (BF_good_route _ _ _ _ _ _ _ _ Hb Hlast) as Hroute.
    split; [done|]. intros P HP. destruct (Hmin P HP) as (e & He & Hpre & Hkey).
    destruct Hb as (Hbh & _ & _ & _ & Hbc). destruct He as (Heh & _ & _ & _ & Hec).
    destruct (prefix_route_cost _ P Heh Hpre HP) as (k & -> & Hk & HPc & HPl).
    rewrite (walk_cost_head g start _ (proj1 HP)) in HPc.
    pose proof (walk_cost_head g start _ Hbh) as Hbw.
    apply key_lt_false in Hkey. unfold BB_key, BB_cost_inv in *; simpl in Hkey. lia.
Qed.

Lemma AS_returns :
  ∃ p, (∀ fuel, count_walks g (rows * cols - 1) [start] < fuel →
                AStar_find_path fuel g start goal = Returned p) ∧
       BF_post as_path AS_key (AS_cost_inv g goal) rows cols g start goal p.
Proof.
  destruct (BF_run as_path AS_key (AS_child goal) (AS_cost_inv g goal)
              rows cols g start goal Hok
              (λ _ _, eq_refl) AS_cost_child
              (mkAS [start] (cost (get g start.1 start.2)) (manhattan start goal))
              Hstart eq_refl)
    as (p & Hpost & Hrun).
  { unfold AS_cost_inv, walk_cost; simpl. unfold tile_cost_at.
    split; [lia|]. by intros cur [= <-]. }
  exists p. split; [|done].
  intros fuel Hfuel. unfold AStar_find_path. destruct start as [r c].
  rewrite (run_loop_ext _ _ _ _ (AS_body_eq g goal)). by apply Hrun.
Qed.

(** A-star always ends with a route when there is one. *)
Lemma AS_find_path_route :
  ∃ p, (∀ fuel, count_walks g (rows * cols - 1) [start] < fuel →
                AStar_find_path fuel g start goal = Returned p) ∧
       ((p = [] ∧ ∀ P, ¬ route g start goal P) ∨ route g start goal p).
Proof.
  destruct AS_returns as (p & Hrun & Hpost). exists p. split; [done|].
  destruct Hpost as [?|(best & -> & Hb & Hlast & _)]; [by left|right].
  by eapply BF_good_route.
Qed.

(** With entry costs of at least 1 its route is a cheapest one. *)
Lemma AS_find_path_spec :
  costs_ge 1 rows cols g = true →
  ∃ p, (∀ fuel, count_walks g (rows * cols - 1) [start] < fuel →
                AStar_find_path fuel g start goal = Returned p) ∧
       ((p = [] ∧ ∀ P, ¬ route g start goal P) ∨ cheapest_shortest_route g start goal p).
Proof.
  intros Hge. destruct AS_returns as (p & Hrun & Hpost). exists p. split; [done|].
  destruct Hpost as [?|(best & -> & Hb & Hlast & Hmin)]; [by left|right].
  pose proof (BF_good_route _ _ _ _ _ _ _ _ Hb Hlast) as Hroute.
  split; [done|]. intros P HP. destruct (Hmin P HP) as (e & He & Hpre & Hkey).
  destruct Hb as (Hbh & _ & _ & _ & Hbc & Hbhc).
  destruct He as (Heh & _ & _ & Hein & Hec & Hehc).
  destruct (prefix_route_cost _ P Heh Hpre HP) as (k & -> & Hk & HPc & HPl).
  rewrite (walk_cost_head g start _ (proj1 HP)) in HPc.
  pose proof (walk_cost_head g start _ Hbh) as Hbw.
  apply key_lt_false in Hkey. unfold AS_key in Hkey; simpl in Hkey.
  rewrite (Hbhc _ Hlast), manhattan_refl in Hkey.
  destruct (last (as_path e)) as [cur|] eqn:Hel.
  2: { apply last_None in Hel. by rewrite Hel in Heh. }
  rewrite (Hehc _ eq_refl) in Hkey.
  assert (manhattan cur goal ≤ walk_cost g k)%Z as Hadm.
  { destruct HP as (_ & HPl' & _ & HPch).
    apply chain_app in HPch as (_ & Hck & Hlink).
    eapply manhattan_le_walk_cost; [done..| | |].
    - eapply Forall_forall in Hein; [done|]. by apply last_Some_elem_of.
    - simpl. split; [|done]. destruct k as [|x k]; [done|]. by apply Hlink.
    - rewrite last_app in HPl'. rewrite last_cons. rewrite Hel in HPl'.
      by destruct (last k). }
  lia.
Qed.

End pool_agents.

Lemma run_loop_unique {S A} (body : S → step S A) fuel fuel' s a a' :
  run_loop body fuel s = Returned a → run_loop body fuel' s = Returned a' → a = a'.
Proof.
  intros H1 H2.
  apply (run_loop_mono _ _ (fuel `max` fuel')) in H1; [|lia].
  apply (run_loop_mono _ _ (fuel `max` fuel')) in H2; [|lia]. congruence.
Qed.

Section returned.

Context (rows cols : nat) (g : Grid) (start goal : coord).

Context (Hok : grid_ok rows cols g = true).

Context (Hstart : in_bounds rows cols start = true).

Lemma BB_returned fuel p :
  BranchAndBoundAgent_find_path fuel g start goal = Returned p →
  (p = [] ∧ ∀ P, ¬ route g start goal P) ∨ cheapest_shortest_route g start goal p.
Proof.
  intros Hp. destruct (BB_find_path_spec rows cols g start goal Hok Hstart) as (p' & Hrun & Hpost).
  specialize (Hrun _ (Nat.lt_succ_diag_r _)).
  unfold BranchAndBoundAgent_find_path in *. destruct start as [r c].
  by rewrite (run_loop_unique _ _ _ _ _ _ Hp Hrun).
Qed.

Lemma AS_returned fuel p :
  AStar_find_path fuel g start goal = Returned p →
  (p = [] ∧ ∀ P, ¬ route g start goal P) ∨ route g start goal p.
Proof.
  intros Hp. destruct (AS_find_path_route rows cols g start goal Hok Hstart) as (p' & Hrun & Hpost).
  specialize (Hrun _ (Nat.lt_succ_diag_r _)).
  unfold AStar_find_path in *. destruct start as [r c].
  by rewrite (run_loop_unique _ _ _ _ _ _ Hp Hrun).
Qed.

Lemma route_simple p :
  route g start goal p →
  head p = Some start ∧ last p = Some goal ∧
  chain (λ a b, adjacent4 a b = true) p ∧ NoDup p.
Proof.
  intros (Hh & Hl & Hnd & Hch).
  by destruct (walk_in_bounds rows cols g p start Hok Hstart Hh Hch).
Qed.

End returned.

Lemma AGENTS_lookup nm :
  dict_get AGENTS nm =
  if decide (nm = "Example") then Some ExampleAgent
  else if decide (nm = "DFS") then Some DFSAgent
  else if decide (nm = "BranchAndBound") then Some BranchAndBoundAgent
  else if decide (nm = "AStar") then Some AStar
  else None.
Proof. reflexivity. Qed.

Lemma registered_names nm :
  nm ∈ ["Example"; "DFS"; "BranchAndBound"; "AStar"] ↔
  nm = "Example" ∨ nm = "DFS" ∨ nm = "BranchAndBound" ∨ nm = "AStar".
Proof. rewrite !elem_of_cons, elem_of_nil. tauto. Qed.

(** ** The greedy agent *)

Lemma py_min_spec l m :
  py_min l = Some m → m ∈ l ∧ ∀ x, x ∈ l → (m ≤ x)%Z.
Proof.
  destruct l as [|x l]; [done|]. simpl. intros [= <-].
  revert x. induction l as [|y l IH]; intros x; simpl.
  - split; [by left|]. by intros z ->%list_elem_of_singleton.
  - destruct (IH (if (y <? x)%Z then y else x)) as [Hin Hmin].
    set (m := foldl _ _ l) in *. clearbody m.
    pose proof (Hmin _ (proj2 (elem_of_cons _ _ _) (or_introl eq_refl))) as Hm.
    split.
    + apply elem_of_cons in Hin as [->|Hin].
      * destruct (y <? x)%Z; [right; by left|by left].
      * right. by right.
    + intros z [->|[->|Hz]%elem_of_cons]%elem_of_cons.
      * destruct (y <? x)%Z eqn:?; lia.
      * destruct (y <? x)%Z eqn:?; lia.
      * apply Hmin. by right.
Qed.

Lemma chain_and {A} (R R' : A → A → Prop) l :
  chain R l → chain R' l → chain (λ a b, R a b ∧ R' a b) l.
Proof. induction l as [|a [|b l] IH]; simpl in *; naive_solver. Qed.

Lemma chain_mono {A} (R R' : A → A → Prop) l :
  (∀ a b, R a b → R' a b) → chain R l → chain R' l.
Proof. intros HR. induction l as [|a [|b l] IH]; simpl in *; naive_solver. Qed.

Lemma Example_body_spec rng g start goal s :
  Example_inv g start goal s →
  match Example_body rng g goal s with
  | Continue s' => Example_inv g start goal s'
  | Return p => head p = Some start ∧ last p = Some goal ∧ chain (greedy_move g goal) p
  | Raise _ => True
  end.
Proof.
  destruct s as [nodes k]. intros [Hhd Hch]; simpl in *. unfold Example_body.
  destruct (last nodes) as [cur|] eqn:Hlast; [|done].
  destruct (decide (cur = goal)) as [->|Hne]; [done|].
  destruct cur as [r c].
  destruct (py_min _) as [min_dist|] eqn:Hmin; [|done].
  apply py_min_spec in Hmin as [_ Hmin].
  destruct (_ !! _) as [best_tile|] eqn:Hbest; [|done].
  apply list_elem_of_lookup_2, list_elem_of_filter in Hbest as [Hd Hbest].
  split; simpl.
  - destruct nodes; by simplify_eq/=.
  - apply chain_snoc. split; [done|]. intros a Ha. simplify_eq. split.
    + apply list_elem_of_fmap. by exists best_tile.
    + intros q (t & -> & Ht)%list_elem_of_fmap. apply Hmin.
      apply list_elem_of_fmap. by exists t.
Qed.

(** What the greedy agent returns, it reached by greedy moves. *)
Lemma Example_returned rows cols g start goal (rng : nat → nat) fuel p :
  grid_ok rows cols g = true → in_bounds rows cols start = true →
  ExampleAgent_find_path rng fuel g start goal = Returned p →
  head p = Some start ∧ last p = Some goal ∧
  chain (λ a b, adjacent4 a b = true ∧ greedy_move g goal a b) p.
Proof.
  intros Hok Hstart Hp.
  assert (head p = Some start ∧ last p = Some goal ∧ chain (greedy_move g goal) p)
    as (Hh & Hl & Hch).
  { revert Hp.
    apply (run_loop_invariant _ (Example_inv g start goal)
             (λ p, head p = Some start ∧ last p = Some goal ∧ chain (greedy_move g goal) p));
      [|by split].
    intros s Hs. pose proof (Example_body_spec rng g start goal s Hs) as Hb.
    by destruct (Example_body rng g goal s). }
  split_and!; [done..|]. apply chain_and; [|done].
  apply (walk_in_bounds rows cols g p start Hok Hstart Hh).
  eapply chain_mono; [|done]. by intros a b [? _].
Qed.

(** The draws matter: where two neighbours tie, two calls may differ. *)
Lemma Example_not_deterministic :
  ExampleAgent_find_path (λ _, 0) 5 (uniform3 1 four_dirs) (0, 0)%Z (2, 2)%Z
  ≠ ExampleAgent_find_path (λ _, 1) 5 (uniform3 1 four_dirs) (0, 0)%Z (2, 2)%Z.
Proof. vm_compute. discriminate. Qed.

(** An empty answer of the depth-first agent shows the goal out of reach. *)
Lemma DFS_empty_unreachable rows cols g start goal fuel :
  grid_ok rows cols g = true → in_bounds rows cols start = true →
  DFSAgent_find_path fuel g start goal = Returned [] → ¬ reachable g start goal.
Proof.
  intros Hok Hstart Hp.
  by destruct (DFS_returned rows cols g start goal Hok Hstart _ _ Hp) as [[_ ?]|[? _]].
Qed.

(** In the walled grid the greedy agent goes up and down the left column. *)
Lemma walled_body (rng : nat → nat) nodes k :
  last nodes = Some (0, 0)%Z ∨ last nodes = Some (1, 0)%Z →
  ∃ nodes', Example_body rng walled_grid (0, 2)%Z (nodes, k) = Continue (nodes', S k) ∧
            (last nodes' = Some (0, 0)%Z ∨ last nodes' = Some (1, 0)%Z).
Proof.
  intros [Hl|Hl]; unfold Example_body; rewrite Hl.
  - exists (nodes ++ [(1, 0)%Z]). rewrite last_snoc. split; [done|by right].
  - exists (nodes ++ [(0, 0)%Z]). rewrite last_snoc. split; [done|by left].
Qed.

Lemma walled_run (rng : nat → nat) n nodes k :
  last nodes = Some (0, 0)%Z ∨ last nodes = Some (1, 0)%Z →
  ∃ nodes', run_loop (Example_body rng walled_grid (0, 2)%Z) n (nodes, k)
            = Running (nodes', n + k) ∧
            (last nodes' = Some (0, 0)%Z ∨ last nodes' = Some (1, 0)%Z).
Proof.
  revert nodes k. induction n as [|n IH]; intros nodes k Hl; cbn [run_loop].
  - by exists nodes.
  - destruct (walled_body rng nodes k Hl) as (nodes' & -> & Hl').
    destruct (IH nodes' (S k) Hl') as (nodes'' & -> & Hl'').
    exists nodes''. split; [|done]. do 2 f_equal. lia.
Qed.

(** Whatever the grid, the greedy agent cannot return when the goal is
    out of reach: its loop has no other exit. *)
Lemma Example_unreachable_never_returns rows cols g start goal (rng : nat → nat) fuel p :
  grid_ok rows cols g = true → in_bounds rows cols start = true →
  ¬ reachable g start goal →
  ExampleAgent_find_path rng fuel g start goal ≠ Returned p.
Proof.
  intros Hok Hstart Hnr Hp.
  destruct (Example_returned rows cols g start goal rng fuel p Hok Hstart Hp) as (Hh & Hl & Hch).
  apply Hnr. eapply chain_reachable; [|done..].
  eapply chain_mono; [|done]. by intros a b [_ [? _]].
Qed.

(** ** Rectangular grids *)

Lemma rect_grid_ok rows cols tile_cost walls dirs :
  Forall (λ d, adjacent4 (0, 0)%Z d = true) dirs → (∀ p, (0 ≤ tile_cost p)%Z) →
  grid_ok rows cols (rect_grid rows cols tile_cost walls dirs) = true.
Proof.
  intros Hdirs Hcost. unfold grid_ok. apply forallb_forall. intros [r c] _; simpl.
  apply andb_true_intro. split; [apply andb_true_intro; split|].
  - by apply bool_decide_eq_true.
  - specialize (Hcost (r, c)). lia.
  - apply forallb_forall. intros t Ht%list_elem_of_In.
    apply list_elem_of_fmap in Ht as (q & -> & Hq).
    apply list_elem_of_filter in Hq as [[Hin _] Hq].
    apply list_elem_of_fmap in Hq as (d & -> & Hd).
    eapply Forall_forall in Hdirs; [|done].
    unfold tile_ok; simpl. rewrite Hin.
    rewrite bool_decide_eq_true_2 by done. rewrite !andb_true_r.
    revert Hdirs. unfold adjacent4, manhattan. destruct d; simpl. lia.
Qed.

Lemma rect_grid_costs_ge k rows cols tile_cost walls dirs :
  (∀ p, (k ≤ tile_cost p)%Z) →
  costs_ge k rows cols (rect_grid rows cols tile_cost walls dirs) = true.
Proof.
  intros Hcost. unfold costs_ge. apply forallb_forall. intros [r c] _; simpl.
  specialize (Hcost (r, c)). lia.
Qed.

Lemma rect_grid_neighbors4 rows cols u walls dirs r c :
  neighbors4 (rect_grid rows cols (λ _, u) walls dirs) r c
  = (λ p, mkTile p u) <$> rect_neighbors rows cols walls dirs r c.
Proof. done. Qed.

Lemma rect_grid_step rows cols u u' walls dirs a b :
  grid_step (rect_grid rows cols (λ _, u) walls dirs) a b ↔
  grid_step (rect_grid rows cols (λ _, u') walls dirs) a b.
Proof.
  unfold grid_step. rewrite !rect_grid_neighbors4, <-!list_fmap_compose.
  done.
Qed.

Lemma rect_grid_route rows cols u u' walls dirs start goal p :
  route (rect_grid rows cols (λ _, u) walls dirs) start goal p →
  route (rect_grid rows cols (λ _, u') walls dirs) start goal p.
Proof.
  intros (? & ? & ? & Hch). split_and!; [done..|].
  eapply chain_mono; [|done]. intros a b. by apply rect_grid_step.
Qed.

Lemma rect_grid_total_cost rows cols u walls dirs p :
  total_cost (rect_grid rows cols (λ _, u) walls dirs) p
  = (u * Z.of_nat (length p - 1))%Z.
Proof.
  unfold total_cost. destruct p as [|a p]; simpl; [lia|]. rewrite Nat.sub_0_r.
  induction p as [|b p IH]; csimpl; [lia|]. rewrite IH. lia.
Qed.

(** A walk is at least as long as the Manhattan distance it covers. *)
Lemma walk_length_manhattan (p : Path) a b :
  chain (λ a b, adjacent4 a b = true) p → head p = Some a → last p = Some b →
  (manhattan a b + 1 ≤ Z.of_nat (length p))%Z.
Proof.
  revert a. induction p as [|x [|y p] IH]; intros a Hch Hh Hl; simplify_eq/=.
  - rewrite manhattan_refl. lia.
  - destruct Hch as [Hxy Hch]. specialize (IH y Hch eq_refl Hl).
    pose proof (manhattan_step a y b Hxy). simpl in IH. lia.
Qed.

(** ** Depth-first search where all tiles cost the same *)

Lemma filter_unvisited_fmap (u : Z) (visited : gset coord) (ps : list coord) :
  filter (λ t, pos t ∉ visited) ((λ p, mkTile p u) <$> ps)
  = (λ p, mkTile p u) <$> filter (λ p, p ∉ visited) ps.
Proof.
  induction ps as [|p ps IH]; [done|]. csimpl. rewrite !filter_cons; simpl.
  destruct (decide (p ∉ visited)); csimpl; by rewrite IH.
Qed.

Lemma key_lt_same_cost (u a b : Z) : key_lt (u, a) (u, b) = (a <? b)%Z.
Proof. unfold key_lt; simpl. rewrite Z.ltb_irrefl, Z.eqb_refl. done. Qed.

Section uniform_sort.

Context (u : Z).

Local Abbreviation rekey := (rekey u).

Lemma insert_by_key_rekey x l :
  x.1.1 = 0%Z → Forall (λ y : (Z * Z) * Tile, y.1.1 = 0%Z) l →
  insert_by_key (rekey x) (rekey <$> l) = rekey <$> insert_by_key x l.
Proof.
  intros Hx. induction 1 as [|y l Hy _ IH]; [done|]. csimpl.
  destruct x as [[cx dx] tx], y as [[cy dy] ty]; simpl in *; subst.
  rewrite !key_lt_same_cost. destruct (dy <? dx)%Z; csimpl; [|done].
  by rewrite IH.
Qed.

Lemma sort_keyed_rekey l :
  Forall (λ y : (Z * Z) * Tile, y.1.1 = 0%Z) l →
  sort_keyed (rekey <$> l) = rekey <$> sort_keyed l.
Proof.
  induction 1 as [|x l Hx Hl IH]; [done|]. csimpl. rewrite IH.
  apply insert_by_key_rekey; [done|]. by rewrite sort_keyed_perm.
Qed.

Lemma DFS_key_rekey r c (q : coord) y :
  DFS_key r c (mkTile q 0%Z) ≫= (λ k, Some (k, mkTile q 0%Z)) = Some y →
  DFS_key r c (mkTile q u) ≫= (λ k, Some (k, mkTile q u)) = Some (rekey y) ∧ y.1.1 = 0%Z.
Proof.
  unfold DFS_key. cbn [pos cost].
  destruct (dict_get directions _) as [d|]; simpl; [|done]. by intros [= <-].
Qed.

Lemma py_sorted_uniform r c (qs : list coord) :
  py_sorted (DFS_key r c) ((λ p, mkTile p u) <$> qs)
  = fmap (M:=list) (λ t, mkTile (pos t) u) <$> py_sorted (DFS_key r c) ((λ p, mkTile p 0%Z) <$> qs).
Proof.
  unfold py_sorted.
  destruct (mapM _ ((λ p, mkTile p 0%Z) <$> qs)) as [l0|] eqn:H0; simpl.
  - apply mapM_Some, Forall2_fmap_l in H0.
    assert (mapM (λ x, k ← DFS_key r c x; Some (k, x)) ((λ p, mkTile p u) <$> qs)
            = Some (rekey <$> l0)) as ->.
    { apply mapM_Some, Forall2_fmap. eapply Forall2_impl; [done|].
      intros q y Hy. by apply DFS_key_rekey in Hy as [? _]. }
    simpl. f_equal. rewrite sort_keyed_rekey.
    + by rewrite <-!list_fmap_compose.
    + eapply Forall2_Forall_r; [done|]. apply Forall_forall.
      intros q _ y Hy. by apply DFS_key_rekey in Hy as [_ ?].
  - assert (mapM (λ x, k ← DFS_key r c x; Some (k, x)) ((λ p, mkTile p u) <$> qs) = None)
      as ->; [|done].
    apply eq_None_not_Some. intros Hu. eapply eq_None_not_Some; [exact H0|].
    rewrite mapM_is_Some, Forall_fmap. rewrite mapM_is_Some, Forall_fmap in Hu.
    eapply Forall_impl; [exact Hu|]. intros q. unfold DFS_key. cbn [compose pos cost].
    by destruct (dict_get directions _).
Qed.

End uniform_sort.

Lemma DFS_uniform rows cols u walls dirs start goal fuel :
  DFSAgent_find_path fuel (rect_grid rows cols (λ _, u) walls dirs) start goal
  = DFSAgent_find_path fuel (rect_grid rows cols (λ _, 0%Z) walls dirs) start goal.
Proof.
  apply run_loop_ext. intros [nodes visited]. unfold DFS_body.
  destruct (last nodes) as [[r c]|]; [|done].
  destruct (decide _); [done|].
  rewrite !rect_grid_neighbors4, !filter_unvisited_fmap, (py_sorted_uniform u).
  by destruct (py_sorted _ _) as [[|best_tile rest]|].
Qed.

(** ** The 3 by 3 grid of equal costs *)

Lemma uniform3_checked : forallb uniform3_check (permutations four_dirs) = true.
Proof. vm_compute. reflexivity. Qed.

Lemma returns_length_spec {S} n (o : outcome S Path) :
  returns_length n o = true → ∃ p, o = Returned p ∧ length p = n.
Proof.
  destruct o as [p| |]; simpl; try done.
  intros Hp%bool_decide_eq_true. by exists p.
Qed.

Section uniform3.

Context (u : Z) (dirs : list coord).

Context (Hu : (0 ≤ u)%Z) (Hdirs : dirs ≡ₚ four_dirs).

Lemma uniform3_facts :
  route (uniform3 u dirs) (0, 0)%Z (2, 2)%Z corner_route ∧
  (∃ p, DFSAgent_find_path 18 (uniform3 u dirs) (0, 0)%Z (2, 2)%Z = Returned p ∧ length p = 5) ∧
  (∃ p, AStar_find_path 5 (uniform3 0 dirs) (0, 0)%Z (2, 2)%Z = Returned p ∧ length p = 5).
Proof.
  pose proof uniform3_checked as Hall. rewrite forallb_forall in Hall.
  assert (uniform3_check dirs = true) as Hc.
  { apply Hall, list_elem_of_In, permutations_Permutation. by symmetry. }
  unfold uniform3_check in Hc.
  apply andb_prop in Hc as [[Hr%bool_decide_eq_true Hd]%andb_prop Ha]. split_and!.
  - by apply (rect_grid_route 3 3 0).
  - unfold uniform3. rewrite DFS_uniform. by apply returns_length_spec.
  - by apply returns_length_spec.
Qed.

Lemma uniform3_ok : grid_ok 3 3 (uniform3 u dirs) = true.
Proof.
  apply rect_grid_ok; [|done]. rewrite Hdirs. by repeat constructor.
Qed.

Lemma uniform3_cheapest p :
  cheapest_shortest_route (uniform3 u dirs) (0, 0)%Z (2, 2)%Z p → length p = 5.
Proof.
  intros [Hr Hmin]. destruct uniform3_facts as (Hc & _).
  destruct (Hmin _ Hc) as [Hle Hlen].
  unfold uniform3 in Hle, Hlen. rewrite !rect_grid_total_cost in Hle, Hlen.
  destruct (route_simple 3 3 _ (0, 0)%Z (2, 2)%Z uniform3_ok eq_refl p Hr)
    as (Hh & Hl & Hch & _).
  pose proof (walk_length_manhattan p _ _ Hch Hh Hl) as Hlong.
  change (manhattan (0, 0)%Z (2, 2)%Z) with 4%Z in Hlong.
  change (length corner_route) with 5 in *.
  destruct (decide (u = 0%Z)) as [->|Hne]; [lia|nia].
Qed.

End uniform3.

(** ** The greedy agent where the goal is out of reach *)

Lemma randint_range raw n : 0 < n → randint raw 0 (n - 1) < n.
Proof.
  intros Hn. unfold randint. replace (n - 1 - 0 + 1) with n by lia.
  simpl. apply Nat.mod_upper_bound. lia.
Qed.

(** Where the goal is out of reach and no tile within reach is without
    neighbours, an iteration of the greedy loop neither returns nor
    raises: it moves on to a tile within reach. *)
Lemma Example_body_continues (rng : nat → nat) g start goal nodes k cur :
  (∀ p, reachable g start p → neighbors4 g p.1 p.2 ≠ []) →
  ¬ reachable g start goal →
  last nodes = Some cur → reachable g start cur →
  ∃ next, Example_body rng g goal (nodes, k) = Continue (nodes ++ [next], S k) ∧
          reachable g start next.
Proof.
  intros Hnb Hnr Hlast Hcur. unfold Example_body. rewrite Hlast.
  destruct (decide (cur = goal)) as [->|_]; [done|].
  specialize (Hnb cur Hcur). destruct cur as [r c]; simpl in Hnb.
  destruct (py_min _) as [min_dist|] eqn:Hmin.
  2: { by destruct (neighbors4 g r c). }
  apply py_min_spec in Hmin as [(t & Ht & Htin)%list_elem_of_fmap _].
  set (best_tiles := filter _ _).
  assert (t ∈ best_tiles) as Hbest by by apply list_elem_of_filter.
  assert (0 < length best_tiles) as Hlen.
  { destruct best_tiles; [by apply elem_of_nil in Hbest|simpl; lia]. }
  destruct (lookup_lt_is_Some_2 best_tiles _ (randint_range (rng k) _ Hlen))
    as [best_tile Hlk].
  rewrite Hlk. exists (pos best_tile). split; [done|].
  apply list_elem_of_lookup_2, list_elem_of_filter in Hlk as [_ Hin].
  eapply rtc_r; [done|]. apply list_elem_of_fmap. by exists best_tile.
Qed.

Lemma Example_keeps_running (rng : nat → nat) g start goal n :
  (∀ p, reachable g start p → neighbors4 g p.1 p.2 ≠ []) →
  ¬ reachable g start goal →
  ∃ nodes, ExampleAgent_find_path rng n g start goal = Running (nodes, n) ∧
           last nodes ≠ Some goal.
Proof.
  intros Hnb Hnr. unfold ExampleAgent_find_path.
  assert (∀ n nodes k cur,
            last nodes = Some cur → reachable g start cur →
            ∃ nodes' cur', run_loop (Example_body rng g goal) n (nodes, k)
                           = Running (nodes', n + k) ∧
                           last nodes' = Some cur' ∧ reachable g start cur') as Hrun.
  { clear n. induction n as [|n IH]; intros nodes k cur Hlast Hcur; cbn [run_loop].
    - by exists nodes, cur.
    - destruct (Example_body_continues rng g start goal nodes k cur Hnb Hnr Hlast Hcur)
        as (next & -> & Hnext).
      destruct (IH (nodes ++ [next]) (S k) next (last_snoc _ _) Hnext)
        as (nodes' & cur' & -> & ? & ?).
      exists nodes', cur'. split; [|done]. do 2 f_equal. lia. }
  destruct (Hrun n [start] 0 start eq_refl (rtc_refl _ _)) as (nodes & cur & -> & Hl & Hc).
  exists nodes. rewrite Nat.add_0_r. split; [done|].
  rewrite Hl. intros [= ->]. by apply Hnr.
Qed.

(** So it is on the open 2 by 2 grid with a goal outside the grid. *)
Lemma Example_goal_outside (rng : nat → nat) n :
  ∃ nodes,
    ExampleAgent_find_path rng n (rect_grid 2 2 (λ _, 1%Z) [] four_dirs) (0, 0)%Z (5, 5)%Z
    = Running (nodes, n) ∧ last nodes ≠ Some (5, 5)%Z.
Proof.
  assert (grid_ok 2 2 (rect_grid 2 2 (λ _, 1%Z) [] four_dirs) = true) as Hok
    by by vm_compute.
  apply Example_keeps_running.
  - intros p Hp%(reachable_in_bounds 2 2 _ Hok); [|done].
    apply elem_of_cells in Hp. vm_compute in Hp.
    repeat (apply elem_of_cons in Hp as [->|Hp]); [by vm_compute..|].
    by apply elem_of_nil in Hp.
  - by intros Hr%(reachable_in_bounds 2 2 _ Hok).
Qed.

(** ** More on bounded iteration *)

Section run_loop_more.

Context {S A : Type} (body : S → step S A).

(** An invariant holds of the state a run is left in. *)
Lemma run_loop_invariant_running (I : S → Prop) :
  (∀ s, I s → match body s with Continue s' => I s' | _ => True end) →
  ∀ fuel s s', I s → run_loop body fuel s = Running s' → I s'.
Proof.
  intros Hbody. induction fuel as [|n IH]; intros s s' Hs; simpl.
  - by intros [= <-].
  - specialize (Hbody s Hs). destruct (body s) as [s1|a|e]; try done. by apply IH.
Qed.

(** Where no iteration from a state of the invariant raises, no run does. *)
Lemma run_loop_no_raise (I : S → Prop) :
  (∀ s, I s → match body s with
              | Continue s' => I s' | Return _ => True | Raise _ => False
              end) →
  ∀ fuel s e, I s → run_loop body fuel s ≠ Raised e.
Proof.
  intros Hbody. induction fuel as [|n IH]; intros s e Hs; simpl; [done|].
  specialize (Hbody s Hs). destruct (body s) as [s1|a|e']; try done. by apply IH.
Qed.

End run_loop_more.

(** ** More on the three exhaustive agents *)

Section exhaustive.

Context (rows cols : nat) (g : Grid) (start goal : coord).
Context (Hok : grid_ok rows cols g = true).
Context (Hstart : in_bounds rows cols start = true).

Lemma BB_init_inv :
  BF_inv bb_path (BB_cost_inv g) rows cols g start goal
    [mkBB [start] (cost (get g start.1 start.2))].
Proof.
  split.
  - intros e ->%list_elem_of_singleton. unfold BF_good; simpl.
    split_and!; try done; [apply NoDup_singleton|by apply Forall_singleton|].
    unfold BB_cost_inv, walk_cost; simpl. unfold tile_cost_at. lia.
  - intros P (Hhd & _). eexists. split; [by left|]. simpl.
    apply head_Some in Hhd as [k ->]. by exists k.
Qed.

Lemma AS_init_inv :
  BF_inv as_path (AS_cost_inv g goal) rows cols g start goal
    [mkAS [start] (cost (get g start.1 start.2)) (manhattan start goal)].
Proof.
  split.
  - intros e ->%list_elem_of_singleton. unfold BF_good; simpl.
    split_and!; try done; [apply NoDup_singleton|by apply Forall_singleton|].
    unfold AS_cost_inv, walk_cost; simpl. unfold tile_cost_at.
    split; [lia|]. by intros cur [= <-].
  - intros P (Hhd & _). eexists. split; [by left|]. simpl.
    apply head_Some in Hhd as [k ->]. by exists k.
Qed.

Lemma BB_body_inv nodes :
  BF_inv bb_path (BB_cost_inv g) rows cols g start goal nodes →
  match BB_body g goal nodes with
  | Continue nodes' => BF_inv bb_path (BB_cost_inv g) rows cols g start goal nodes'
  | Return _ => True
  | Raise _ => False
  end.
Proof.
  intros Hn. rewrite BB_body_eq.
  pose proof (BF_body_spec bb_path BB_key BB_child (BB_cost_inv g) rows cols g start goal
                Hok (λ _ _, eq_refl) (BB_cost_child rows cols g start Hok) nodes Hn) as Hb.
  destruct (BF_body _ _ _ _ _ _); tauto.
Qed.

Lemma AS_body_inv nodes :
  BF_inv as_path (AS_cost_inv g goal) rows cols g start goal nodes →
  match AS_body g goal nodes with
  | Continue nodes' => BF_inv as_path (AS_cost_inv g goal) rows cols g start goal nodes'
  | Return _ => True
  | Raise _ => False
  end.
Proof.
  intros Hn. rewrite AS_body_eq.
  pose proof (BF_body_spec as_path AS_key (AS_child goal) (AS_cost_inv g goal)
                rows cols g start goal
                Hok (λ _ _, eq_refl) (AS_cost_child rows cols g start goal Hok) nodes Hn) as Hb.
  destruct (BF_body _ _ _ _ _ _); tauto.
Qed.

Lemma AS_returned_cheapest fuel p :
  costs_ge 1 rows cols g = true →
  AStar_find_path fuel g start goal = Returned p →
  (p = [] ∧ ∀ P, ¬ route g start goal P) ∨ cheapest_shortest_route g start goal p.
Proof.
  intros Hge Hp.
  destruct (AS_find_path_spec rows cols g start goal Hok Hstart Hge) as (p' & Hrun & Hpost).
  specialize (Hrun _ (Nat.lt_succ_diag_r _)).
  unfold AStar_find_path in *. destruct start as [r c].
  by rewrite (run_loop_unique _ _ _ _ _ _ Hp Hrun).
Qed.

(** Within reach means joined by a route: the depth-first agent finds one. *)
Lemma reachable_route : reachable g start goal ↔ ∃ P, route g start goal P.
Proof.
  split.
  - intros Hr.
    destruct (DFS_terminates rows cols g start goal Hok Hstart _ (Nat.le_refl _)) as [p Hp].
    destruct (DFS_returned rows cols g start goal Hok Hstart _ _ Hp) as [[_ ?]|?]; [done|].
    by exists p.
  - intros (P & Hh & Hl & _ & Hch). by eapply chain_reachable.
Qed.

Lemma manhattan_in_bounds (a b : coord) :
  in_bounds rows cols a = true → in_bounds rows cols b = true →
  (manhattan a b ≤ Z.of_nat rows + Z.of_nat cols - 2)%Z.
Proof. unfold in_bounds, manhattan. destruct a, b; simpl. lia. Qed.

(** What A-star returns costs no more than any route and the distance
    its heuristic adds along that route. *)
Lemma AS_returned_bound fuel p P :
  AStar_find_path fuel g start goal = Returned p → route g start goal P →
  route g start goal p ∧
  (total_cost g p ≤ total_cost g P + Z.of_nat (length P - 1))%Z ∧
  (total_cost g p ≤ total_cost g P + (Z.of_nat rows + Z.of_nat cols - 2))%Z.
Proof.
  intros Hp HP. destruct AS_returns with (rows:=rows) (cols:=cols) (g:=g) (start:=start)
    (goal:=goal) as (p' & Hrun & Hpost); [done..|].
  specialize (Hrun _ (Nat.lt_succ_diag_r _)).
  assert (p' = p) as ->.
  { unfold AStar_find_path in *. destruct start as [r c].
    by rewrite (run_loop_unique _ _ _ _ _ _ Hp Hrun). }
  destruct Hpost as [[_ Hno]|(best & -> & Hb & Hlast & Hmin)]; [by destruct (Hno P)|].
  pose proof (BF_good_route _ _ _ _ _ _ _ _ Hb Hlast) as Hroute.
  split; [done|]. destruct (Hmin P HP) as (e & He & Hpre & Hkey).
  destruct Hb as (Hbh & _ & _ & _ & Hbc & Hbhc).
  destruct He as (Heh & _ & _ & Hein & Hec & Hehc).
  destruct (prefix_route_cost rows cols g start goal Hok Hstart _ P Heh Hpre HP)
    as (k & -> & Hk & HPc & HPl).
  rewrite (walk_cost_head g start _ (proj1 HP)) in HPc.
  pose proof (walk_cost_head g start _ Hbh) as Hbw.
  apply key_lt_false in Hkey. unfold AS_key in Hkey; simpl in Hkey.
  rewrite (Hbhc _ Hlast), manhattan_refl in Hkey.
  destruct (last (as_path e)) as [cur|] eqn:Hel.
  2: { apply last_None in Hel. by rewrite Hel in Heh. }
  rewrite (Hehc _ eq_refl) in Hkey.
  assert (in_bounds rows cols cur = true) as Hcur.
  { eapply Forall_forall in Hein; [done|]. by apply last_Some_elem_of. }
  destruct HP as (HPh & HPl' & _ & HPch).
  destruct (walk_in_bounds rows cols g _ start Hok Hstart HPh HPch) as [Hadj Hin].
  assert (in_bounds rows cols goal = true) as Hgoal.
  { eapply Forall_forall in Hin; [done|]. by apply last_Some_elem_of. }
  pose proof (manhattan_in_bounds cur goal Hcur Hgoal) as Hfar.
  assert (manhattan cur goal ≤ Z.of_nat (length k))%Z as Hmoves.
  { apply chain_app in Hadj as (_ & Hck & Hlink).
    assert (chain (λ a b, adjacent4 a b = true) (cur :: k)) as Hc.
    { simpl. split; [|done]. destruct k as [|x k]; [done|]. by apply Hlink. }
    assert (last (cur :: k) = Some goal) as Hl.
    { rewrite last_app in HPl'. rewrite last_cons. rewrite Hel in HPl'.
      by destruct (last k). }
    pose proof (walk_length_manhattan (cur :: k) cur goal Hc eq_refl Hl) as Hw.
    simpl in Hw. lia. }
  assert (0 < length (as_path e)) by (destruct (as_path e); [done|simpl; lia]).
  unfold AS_cost_inv in *. lia.
Qed.

End exhaustive.

(** ** Failing pool searches *)

Section run_loop_exact.
Context {S A : Type} (body : S → step S A).

(** A measure that every iteration lowers by exactly one, and a return
    only at measure 0: the loop makes exactly [m s] iterations. *)
Lemma run_loop_exact (I : S → Prop) (m : S → nat) (a0 : A) :
  (∀ s, I s → match body s with
              | Continue s' => I s' ∧ Datatypes.S (m s') = m s
              | Return a => a = a0 ∧ m s = 0
              | Raise _ => False
              end) →
  ∀ fuel s, I s →
    (fuel ≤ m s → ∃ s', run_loop body fuel s = Running s') ∧
    (m s < fuel → run_loop body fuel s = Returned a0).
Proof.
  intros Hbody. induction fuel as [|n IH]; intros s Hs; simpl.
  - split; [by eexists|lia].
  - specialize (Hbody s Hs). destruct (body s) as [s1|a|e]; [| |done].
    + destruct Hbody as [Hs1 Hm]. destruct (IH s1 Hs1) as [IH1 IH2].
      split; intros; [apply IH1|apply IH2]; lia.
    + destruct Hbody as [-> Hm]. split; [lia|done].
Qed.
End run_loop_exact.

Section best_first_exact.
Context {E : Type} `{EqDecision E}.
Context (path : E → Path) (key : E → Z * Z) (child : E → Tile → E).
Context (cost_inv : E → Prop).
Context (rows cols : nat) (g : Grid) (start goal : coord).
Context (Hok : grid_ok rows cols g = true).
Context (Hpath_child : ∀ e t, path (child e t) = path e ++ [pos t]).
Context (Hcost_child : ∀ e t cur,
  BF_good path cost_inv rows cols g start e → last (path e) = Some cur →
  t ∈ neighbors4 g cur.1 cur.2 → pos t ∉ path e → cost_inv (child e t)).
Context (Hno : ∀ P, ¬ route g start goal P).

Lemma BF_body_exact nodes :
  BF_inv path cost_inv rows cols g start goal nodes →
  match BF_body path key child g goal nodes with
  | Continue nodes' =>
      BF_inv path cost_inv rows cols g start goal nodes' ∧
      S (sum_list_with (BF_weight path rows cols g) nodes')
      = sum_list_with (BF_weight path rows cols g) nodes
  | Return p => p = [] ∧ sum_list_with (BF_weight path rows cols g) nodes = 0
  | Raise _ => False
  end.
Proof.
  intros Hinv.
  pose proof (BF_body_spec path key child cost_inv rows cols g start goal
                Hok Hpath_child Hcost_child nodes Hinv) as Hb.
  destruct Hinv as [Hgood _]. unfold BF_body in *.
  destruct nodes as [|first rest]; [done|].
  destruct (py_min_by_spec key first rest) as [Hbest _].
  set (best := py_min_by key first rest) in *. clearbody best.
  set (nodes := first :: rest) in *. clearbody nodes.
  pose proof (Hgood best Hbest) as Hgb.
  destruct (py_remove_perm best nodes Hbest) as (nodes' & Hrm & Hperm).
  rewrite Hrm in *.
  destruct (last (path best)) as [current|] eqn:Hlast; [|done].
  destruct (decide (current = goal)) as [->|Hne].
  { destruct (Hno (path best)). by eapply BF_good_route. }
  destruct Hb as [Hinv' _]. split; [done|].
  rewrite Hperm.
  rewrite sum_list_with_app; simpl.
  rewrite (weight_expand path child cost_inv rows cols g start Hok Hpath_child Hcost_child
             best current Hgb Hlast). lia.
Qed.

Lemma BF_exact e0 :
  in_bounds rows cols start = true → path e0 = [start] → cost_inv e0 →
  ∀ fuel,
    (fuel ≤ count_walks g (rows * cols - 1) [start] →
     ∃ nodes, run_loop (BF_body path key child g goal) fuel [e0] = Running nodes) ∧
    (count_walks g (rows * cols - 1) [start] < fuel →
     run_loop (BF_body path key child g goal) fuel [e0] = Returned []).
Proof.
  intros Hstart He0 Hc0 fuel.
  assert (BF_inv path cost_inv rows cols g start goal [e0]) as Hinit.
  { split.
    - intros e ->%list_elem_of_singleton. unfold BF_good. rewrite He0.
      split_and!; try done; [apply NoDup_singleton|by apply Forall_singleton].
    - intros P HP. by destruct (Hno P). }
  assert (sum_list_with (BF_weight path rows cols g) [e0]
          = count_walks g (rows * cols - 1) [start]) as Hm.
  { simpl. unfold BF_weight. rewrite He0. simpl. lia. }
  rewrite <-Hm.
  apply (run_loop_exact _ (BF_inv path cost_inv rows cols g start goal)); [|done].
  apply BF_body_exact.
Qed.
End best_first_exact.

(** ** The greedy agent where it can always come nearer *)

Section greedy_progress.
Context (rows cols : nat) (g : Grid) (start goal : coord) (rng : nat → nat).
Context (Hok : grid_ok rows cols g = true).
Context (Hprogress : greedy_progress rows cols g goal = true).
Context (Hstart : in_bounds rows cols start = true).

Lemma greedy_progress_cell p :
  in_bounds rows cols p = true → p ≠ goal →
  ∃ t, t ∈ neighbors4 g p.1 p.2 ∧ (manhattan (pos t) goal < manhattan p goal)%Z.
Proof.
  intros Hp%elem_of_cells Hne. unfold greedy_progress in Hprogress.
  rewrite forallb_forall in Hprogress. apply list_elem_of_In, Hprogress in Hp.
  apply orb_prop in Hp as [Hp|Hp].
  - by apply bool_decide_eq_true in Hp.
  - apply existsb_exists in Hp as (t & Ht%list_elem_of_In & Hlt). exists t. split; [done|lia].
Qed.

Lemma Example_body_progress s :
  Example_progress_inv rows cols start goal s →
  match Example_body rng g goal s with
  | Continue s' => Example_progress_inv rows cols start goal s' ∧
                   Example_distance goal s' < Example_distance goal s
  | Return p => Z.of_nat (length p) = (manhattan start goal + 1)%Z
  | Raise _ => False
  end.
Proof.
  destruct s as [nodes k]. intros (cur & Hlast & Hcur & Hdist); simpl in *.
  unfold Example_body. rewrite Hlast.
  destruct (decide (cur = goal)) as [->|Hne].
  { rewrite manhattan_refl in Hdist. lia. }
  destruct (greedy_progress_cell cur Hcur Hne) as (t0 & Ht0 & Hnear).
  destruct (grid_ok_cell rows cols g Hok cur Hcur) as (_ & _ & Hnb).
  destruct cur as [r c]; simpl in *.
  destruct (py_min _) as [min_dist|] eqn:Hmin.
  2: { by destruct (neighbors4 g r c); [apply elem_of_nil in Ht0|]. }
  apply py_min_spec in Hmin as [(t & Ht & Htin)%list_elem_of_fmap Hmin].
  set (best_tiles := filter _ _).
  assert (t ∈ best_tiles) as Hbest by by apply list_elem_of_filter.
  assert (0 < length best_tiles) as Hlen.
  { destruct best_tiles; [by apply elem_of_nil in Hbest|simpl; lia]. }
  destruct (lookup_lt_is_Some_2 best_tiles _ (randint_range (rng k) _ Hlen))
    as [best_tile Hlk].
  rewrite Hlk.
  apply list_elem_of_lookup_2, list_elem_of_filter in Hlk as [Hbd Hbin].
  destruct (Hnb best_tile Hbin) as (Hadj & Hbb & _).
  pose proof (manhattan_step (r, c) (pos best_tile) goal Hadj) as Hstep.
  assert (min_dist ≤ manhattan (pos t0) goal)%Z as Hle.
  { apply Hmin, list_elem_of_fmap. by exists t0. }
  assert (0 ≤ manhattan (pos best_tile) goal)%Z by (unfold manhattan; lia).
  split.
  - exists (pos best_tile). simpl. rewrite last_snoc, length_app. simpl.
    split_and!; [done..|lia].
  - unfold Example_distance; simpl. rewrite last_snoc, Hlast. lia.
Qed.

Lemma Example_progress_returns fuel :
  Z.to_nat (manhattan start goal) < fuel →
  ∃ p, ExampleAgent_find_path rng fuel g start goal = Returned p ∧
       Z.of_nat (length p) = (manhattan start goal + 1)%Z.
Proof.
  intros Hfuel.
  assert (Example_progress_inv rows cols start goal ([start], 0)) as Hinit.
  { exists start. simpl. split_and!; [done..|lia]. }
  destruct (run_loop_terminates (Example_body rng g goal)
              (Example_progress_inv rows cols start goal) (Example_distance goal)) 
    with (fuel := fuel) (s := ([start], 0)) as [p Hp]; [|done|done|].
  { intros s Hs. pose proof (Example_body_progress s Hs) as Hb.
    by destruct (Example_body rng g goal s). }
  exists p. split; [done|]. revert Hp.
  apply (run_loop_invariant _ (Example_progress_inv rows cols start goal)
           (λ p, Z.of_nat (length p) = (manhattan start goal + 1)%Z)); [|done].
  intros s Hs. pose proof (Example_body_progress s Hs) as Hb.
  destruct (Example_body rng g goal s); tauto.
Qed.
End greedy_progress.

(** An open rectangular grid leaves the greedy agent a nearer neighbour
    everywhere, whatever goal inside the grid it heads for. *)
Lemma rect_grid_greedy_progress rows cols tile_cost dirs goal :
  dirs ≡ₚ four_dirs → in_bounds rows cols goal = true →
  greedy_progress rows cols (rect_grid rows cols tile_cost [] dirs) goal = true.
Proof.
  intros Hdirs Hgoal. unfold greedy_progress. apply forallb_forall.
  intros [r c] Hp%list_elem_of_In%elem_of_cells.
  destruct (decide ((r, c) = goal)) as [->|Hne].
  { by rewrite bool_decide_eq_true_2. }
  apply orb_true_intro. right. apply existsb_exists.
  destruct goal as [gr gc]. unfold in_bounds in Hp, Hgoal; simpl in *.
  assert (∃ d, d ∈ four_dirs ∧ in_bounds rows cols (r + d.1, c + d.2)%Z = true ∧
               (manhattan (r + d.1, c + d.2) (gr, gc) < manhattan (r, c) (gr, gc))%Z)
    as (d & Hd & Hin & Hlt).
  { unfold in_bounds, manhattan; simpl.
    destruct (decide (r < gr)%Z); [exists (1, 0)%Z|
    destruct (decide (gr < r)%Z); [exists (-1, 0)%Z|
    destruct (decide (c < gc)%Z); [exists (0, 1)%Z|
    destruct (decide (gc < c)%Z); [exists (0, -1)%Z|]]]].
    1-4: (split; [unfold four_dirs; set_solver|simpl; lia]).
    destruct Hne. f_equal; lia. }
  exists (mkTile (r + d.1, c + d.2)%Z (tile_cost (r + d.1, c + d.2)%Z)). split.
  - apply list_elem_of_In. simpl. apply list_elem_of_fmap. eexists. split; [done|].
    apply list_elem_of_filter. split; [split; [done|apply not_elem_of_nil]|].
    apply list_elem_of_fmap. exists d. split; [done|]. by rewrite Hdirs.
  - simpl. lia.
Qed.

Lemma py_sorted_None {A} (key : A → option (Z * Z)) l x :
  x ∈ l → key x = None → py_sorted key l = None.
Proof.
  intros Hx Hk. apply eq_None_not_Some. intros [l' Hl']. unfold py_sorted in Hl'.
  destruct (mapM _ l) as [keyed|] eqn:Hm; [|done].
  assert (is_Some (mapM (λ x, k ← key x; Some (k, x)) l)) as Hs by by eexists.
  rewrite mapM_is_Some in Hs. eapply Forall_forall in Hs; [|done].
  simpl in Hs. rewrite Hk in Hs. by destruct Hs.
Qed.

(** ** What [sorted] puts first *)

Lemma key_lt_antisym a b : key_lt a b = false → key_lt b a = false → a = b.
Proof.
  intros Hab%key_lt_false Hba%key_lt_false. destruct a, b; simpl in *. f_equal; lia.
Qed.

Lemma key_le_trans {A} (a b c : (Z * Z) * A) : key_le a b → key_le b c → key_le a c.
Proof.
  unfold key_le. intros Hab%key_lt_false Hbc%key_lt_false. apply key_lt_false. lia.
Qed.

Lemma insert_by_key_sorted {A} (x : (Z * Z) * A) l :
  StronglySorted key_le l → StronglySorted key_le (insert_by_key x l).
Proof.
  induction 1 as [|y l Hl IH Hy]; simpl.
  - by repeat constructor.
  - destruct (key_lt y.1 x.1) eqn:Hyx.
    + constructor; [done|]. rewrite insert_by_key_perm. constructor; [|done].
      apply key_lt_spec in Hyx. apply key_lt_false. lia.
    + constructor; [by constructor|]. constructor; [done|].
      eapply Forall_impl; [done|]. intros z Hz. by eapply key_le_trans.
Qed.

Lemma sort_keyed_sorted {A} (l : list ((Z * Z) * A)) : StronglySorted key_le (sort_keyed l).
Proof.
  induction l as [|x l IH]; simpl; [constructor|]. by apply insert_by_key_sorted.
Qed.

(** Once the keys are there, [sorted] decorates, sorts and undecorates. *)
Lemma py_sorted_decorate {A} (key : A → option (Z * Z)) l :
  Forall (λ x, is_Some (key x)) l →
  py_sorted key l
  = Some ((sort_keyed ((λ x, (default (0, 0)%Z (key x), x)) <$> l)).*2).
Proof.
  intros Hl. unfold py_sorted.
  assert (mapM (λ x, k ← key x; Some (k, x)) l
          = Some ((λ x, (default (0, 0)%Z (key x), x)) <$> l)) as ->; [|done].
  apply mapM_Some, Forall2_fmap_r, Forall_Forall2_diag.
  eapply Forall_impl; [done|]. intros x [k Hk]; simpl. by rewrite Hk.
Qed.

Lemma py_sorted_is_Some_inv {A} (key : A → option (Z * Z)) l :
  is_Some (py_sorted key l) → Forall (λ x, is_Some (key x)) l.
Proof.
  unfold py_sorted. intros [l' Hl'].
  destruct (mapM _ l) as [keyed|] eqn:Hm; [|done].
  assert (is_Some (mapM (λ x, k ← key x; Some (k, x)) l)) as Hs by by eexists.
  rewrite mapM_is_Some in Hs. eapply Forall_impl; [done|].
  intros x [y Hy]; simpl in Hy. destruct (key x); [by eexists|done].
Qed.

(** The first element of [sorted(l, key)] has the least key of [l]. *)
Lemma py_sorted_head {A} (key : A → option (Z * Z)) l best rest :
  py_sorted key l = Some (best :: rest) →
  best ∈ l ∧
  ∃ kb, key best = Some kb ∧
        ∀ x, x ∈ l → ∃ kx, key x = Some kx ∧ key_lt kx kb = false.
Proof.
  intros Hs. pose proof (py_sorted_perm _ _ _ Hs) as Hperm.
  assert (Forall (λ x, is_Some (key x)) l) as Hl by by apply py_sorted_is_Some_inv.
  rewrite (py_sorted_decorate key l Hl) in Hs. injection Hs as Hs.
  pose proof (sort_keyed_sorted ((λ x, (default (0, 0)%Z (key x), x)) <$> l)) as Hsorted.
  pose proof (sort_keyed_perm ((λ x, (default (0, 0)%Z (key x), x)) <$> l)) as Hp.
  destruct (sort_keyed _) as [|[kb b] sorted]; [done|]. simpl in Hs. simplify_eq.
  split; [rewrite <-Hperm; by left|].
  assert (∀ k x, (k, x) ∈ (kb, best) :: sorted → x ∈ l ∧ key x = Some k) as Hdeco.
  { intros k x Hx. rewrite Hp in Hx.
    apply list_elem_of_fmap in Hx as (y & [= -> ->] & Hy). split; [done|].
    eapply Forall_forall in Hl; [|done]. destruct Hl as [ky Hky]. by rewrite Hky. }
  exists kb. split; [apply Hdeco; by left|].
  intros x Hx. eapply Forall_forall in Hl as Hkx; [|done]. destruct Hkx as [kx Hkx].
  exists kx. split; [done|].
  assert ((kx, x) ∈ (kb, best) :: sorted) as Hin.
  { rewrite Hp. apply list_elem_of_fmap. exists x. by rewrite Hkx. }
  apply elem_of_cons in Hin as [[= -> ->]|Hin]; [apply key_lt_irrefl|].
  apply StronglySorted_inv in Hsorted as [_ Hall].
  eapply Forall_forall in Hall; [|done]. exact Hall.
Qed.

(** Where the key tells the elements apart, [sorted] does not depend on
    the order of its argument. *)
Lemma py_sorted_Permutation {A} (key : A → option (Z * Z)) l1 l2 :
  (∀ x y k, x ∈ l1 → y ∈ l1 → key x = Some k → key y = Some k → x = y) →
  l1 ≡ₚ l2 → py_sorted key l1 = py_sorted key l2.
Proof.
  intros Hinj Hperm.
  destruct (py_sorted key l1) as [s1|] eqn:H1.
  - assert (Forall (λ x, is_Some (key x)) l1) as Hl1 by by apply py_sorted_is_Some_inv.
    assert (Forall (λ x, is_Some (key x)) l2) as Hl2 by by rewrite <-Hperm.
    rewrite (py_sorted_decorate key l1 Hl1) in H1.
    rewrite (py_sorted_decorate key l2 Hl2). rewrite <-H1. do 2 f_equal.
    symmetry. apply (StronglySorted_unique_strong key_le); [|apply sort_keyed_sorted..|].
    + intros [k1 x1] [k2 x2]. rewrite !sort_keyed_perm.
      intros (y1 & [= -> ->] & Hy1)%list_elem_of_fmap (y2 & [= -> ->] & Hy2)%list_elem_of_fmap.
      unfold key_le; simpl. intros H21 H12.
      pose proof (key_lt_antisym _ _ H12 H21) as Hk.
      rewrite <-Hperm in Hy1.
      pose proof (proj1 (Forall_forall _ _) Hl1 y1 Hy1) as [k Hk1].
      pose proof (proj1 (Forall_forall _ _) Hl1 y2 Hy2) as [k' Hk2].
      rewrite Hk1, Hk2 in *. simpl in Hk. subst k'.
      by rewrite (Hinj y1 y2 k Hy1 Hy2 Hk1 Hk2).
    + rewrite !sort_keyed_perm. by rewrite Hperm.
  - symmetry. apply eq_None_not_Some. intros Hs%py_sorted_is_Some_inv.
    rewrite <-Hperm in Hs. apply py_sorted_is_Some in Hs. rewrite H1 in Hs. by destruct Hs.
Qed.

(** The key of the depth-first agent tells the tiles around [(r, c)] apart. *)
Lemma DFS_key_inj r c t1 t2 k :
  DFS_key r c t1 = Some k → DFS_key r c t2 = Some k → t1 = t2.
Proof.
  unfold DFS_key. destruct t1 as [[r1 c1] k1], t2 as [[r2 c2] k2]; simpl.
  intros H1 H2. unfold directions, dict_get in H1, H2.
  repeat case_decide; simplify_eq/=; f_equal; try f_equal; lia.
Qed.

Lemma DFS_body_same_neighbors g1 g2 goal nodes visited :
  (∀ cur, last nodes = Some cur →
          neighbors4 g1 cur.1 cur.2 ≡ₚ neighbors4 g2 cur.1 cur.2) →
  DFS_body g1 goal (nodes, visited) = DFS_body g2 goal (nodes, visited).
Proof.
  intros Hperm. unfold DFS_body. destruct (last nodes) as [cur|]; [|done].
  destruct (decide _); [done|]. specialize (Hperm cur eq_refl). destruct cur as [r c].
  simpl in Hperm.
  rewrite (py_sorted_Permutation (DFS_key r c)
             (filter (λ tile, pos tile ∉ visited) (neighbors4 g1 r c))
             (filter (λ tile, pos tile ∉ visited) (neighbors4 g2 r c))); [done| |].
  - intros x y k _ _. apply DFS_key_inj.
  - by rewrite Hperm.
Qed.

Lemma same_neighbors_refl rows cols g : same_neighbors rows cols g g = true.
Proof.
  unfold same_neighbors. apply forallb_forall. intros p _.
  by apply bool_decide_eq_true.
Qed.

Lemma run_loop_ext_inv {S A} (body body' : S → step S A) (I : S → Prop) :
  (∀ s, I s → body s = body' s ∧ match body s with Continue s' => I s' | _ => True end) →
  ∀ fuel s, I s → run_loop body fuel s = run_loop body' fuel s.
Proof.
  intros Hb. induction fuel as [|n IH]; intros s Hs; simpl; [done|].
  destruct (Hb s Hs) as [<- Hnext]. destruct (body s); [|done..]. by apply IH.
Qed.

(** Settles a decidable statement about concrete data by evaluation. *)
Ltac by_compute :=
  match goal with
  | |- ?P => apply (@bool_decide_unpack P _); vm_compute; exact I
  end.

(** * The claims *)

(** C1. A non-empty path returned by the depth-first, the branch-and-bound
    or the A-star agent starts at [start], ends at [goal], moves between
    orthogonally adjacent coordinates and visits no coordinate twice. *)
Theorem C1_returned_path_is_simple rows cols g start goal fuel p :
  grid_ok rows cols g = true → in_bounds rows cols start = true →
  DFSAgent_find_path fuel g start goal = Returned p ∨
  BranchAndBoundAgent_find_path fuel g start goal = Returned p ∨
  AStar_find_path fuel g start goal = Returned p →
  p ≠ [] →
  head p = Some start ∧ last p = Some goal ∧
  chain (λ a b, adjacent4 a b = true) p ∧ NoDup p.
Proof.
  intros Hok Hstart Hret Hne. apply (route_simple rows cols g start goal Hok Hstart).
  destruct Hret as [Hp|[Hp|Hp]].
  - by destruct (DFS_returned rows cols g start goal Hok Hstart fuel p Hp) as [[? _]|?].
  - by destruct (BB_returned rows cols g start goal Hok Hstart fuel p Hp) as [[? _]|[? _]].
  - by destruct (AS_returned rows cols g start goal Hok Hstart fuel p Hp) as [[? _]|?].
Qed.

Lemma C1_witness :
  let p := [(0, 0); (0, 1); (0, 2); (1, 2); (2, 2)]%Z in
  head p = Some (0, 0)%Z ∧ last p = Some (2, 2)%Z ∧
  chain (λ a b, adjacent4 a b = true) p ∧ NoDup p.
Proof.
  apply (C1_returned_path_is_simple 3 3 (uniform3 1 four_dirs) (0, 0)%Z (2, 2)%Z 20).
  - vm_compute. reflexivity.
  - vm_compute. reflexivity.
  - left. vm_compute. reflexivity.
  - discriminate.
Defined.

(** C2, as stated, fails for A-star: on [detour_grid], whose tiles cost 0
    or 1, the free way round costs 0 and A-star returns the way across,
    of cost 1. *)
Lemma C2_counterexample :
  grid_ok 2 3 detour_grid = true ∧ costs_ge 0 2 3 detour_grid = true ∧
  route detour_grid (0, 0)%Z (0, 2)%Z [(0, 0); (1, 0); (1, 1); (1, 2); (0, 2)]%Z ∧
  (∀ fuel, 3 ≤ fuel →
     AStar_find_path fuel detour_grid (0, 0)%Z (0, 2)%Z
     = Returned [(0, 0); (0, 1); (0, 2)]%Z) ∧
  ¬ cheapest_route detour_grid (0, 0)%Z (0, 2)%Z [(0, 0); (0, 1); (0, 2)]%Z.
Proof.
  assert (route detour_grid (0, 0)%Z (0, 2)%Z [(0, 0); (1, 0); (1, 1); (1, 2); (0, 2)]%Z)
    as Hroute by by_compute.
  split_and!; [by vm_compute..|done| |].
  - intros fuel Hfuel. eapply run_loop_mono; [|exact Hfuel]. by vm_compute.
  - intros [_ Hmin]. specialize (Hmin _ Hroute). vm_compute in Hmin. by apply Hmin.
Qed.

(** C2, amended.  Where a route exists, branch-and-bound returns a route
    of least total cost on every grid with non-negative entry costs, and
    A-star does so on every grid whose entry costs are all at least 1. *)
Theorem C2_cheapest_route rows cols g start goal :
  grid_ok rows cols g = true → in_bounds rows cols start = true →
  (∃ P, route g start goal P) →
  (∃ p, (∀ fuel, count_walks g (rows * cols - 1) [start] < fuel →
                 BranchAndBoundAgent_find_path fuel g start goal = Returned p) ∧
        cheapest_route g start goal p) ∧
  (costs_ge 1 rows cols g = true →
   ∃ p, (∀ fuel, count_walks g (rows * cols - 1) [start] < fuel →
                 AStar_find_path fuel g start goal = Returned p) ∧
        cheapest_route g start goal p).
Proof.
  intros Hok Hstart [P HP]. split; [|intros Hge].
  - destruct (BB_find_path_spec rows cols g start goal Hok Hstart)
      as (p & Hrun & [[_ Hno]|[Hr Hmin]]); [by destruct (Hno P)|].
    exists p. split; [done|]. split; [done|]. intros P' HP'. by apply Hmin.
  - destruct (AS_find_path_spec rows cols g start goal Hok Hstart Hge)
      as (p & Hrun & [[_ Hno]|[Hr Hmin]]); [by destruct (Hno P)|].
    exists p. split; [done|]. split; [done|]. intros P' HP'. by apply Hmin.
Qed.

Lemma C2_witness :
  let g := uniform3 1 four_dirs in
  (∃ p, (∀ fuel, count_walks g (3 * 3 - 1) [(0, 0)%Z] < fuel →
                 BranchAndBoundAgent_find_path fuel g (0, 0)%Z (2, 2)%Z = Returned p) ∧
        cheapest_route g (0, 0)%Z (2, 2)%Z p) ∧
  (∃ p, (∀ fuel, count_walks g (3 * 3 - 1) [(0, 0)%Z] < fuel →
                 AStar_find_path fuel g (0, 0)%Z (2, 2)%Z = Returned p) ∧
        cheapest_route g (0, 0)%Z (2, 2)%Z p).
Proof.
  destruct (C2_cheapest_route 3 3 (uniform3 1 four_dirs) (0, 0)%Z (2, 2)%Z) as [Hb Ha].
  - vm_compute. reflexivity.
  - vm_compute. reflexivity.
  - exists [(0, 0); (0, 1); (0, 2); (1, 2); (2, 2)]%Z.
    by_compute.
  - split; [exact Hb|]. apply Ha. vm_compute. reflexivity.
Defined.

(** C3, as stated, fails: on [detour_grid] branch-and-bound returns a
    path of cost 0 and A-star one of cost 1. *)
Lemma C3_counterexample :
  grid_ok 2 3 detour_grid = true ∧ costs_ge 0 2 3 detour_grid = true ∧
  ∃ pa pb,
    AStar_find_path 30 detour_grid (0, 0)%Z (0, 2)%Z = Returned pa ∧
    BranchAndBoundAgent_find_path 30 detour_grid (0, 0)%Z (0, 2)%Z = Returned pb ∧
    total_cost detour_grid pa = 1%Z ∧ total_cost detour_grid pb = 0%Z.
Proof.
  split_and!; [by vm_compute..|].
  exists [(0, 0); (0, 1); (0, 2)]%Z, [(0, 0); (1, 0); (1, 1); (1, 2); (0, 2)]%Z.
  split_and!; by vm_compute.
Qed.

(** C3, amended.  On every grid with non-negative entry costs A-star and
    branch-and-bound both return, and each returns the empty path exactly
    when there is no route; where all entry costs are at least 1 the two
    returned paths have the same total cost. *)
Theorem C3_same_cost rows cols g start goal :
  grid_ok rows cols g = true → in_bounds rows cols start = true →
  ∃ pa pb,
    (∀ fuel, count_walks g (rows * cols - 1) [start] < fuel →
             AStar_find_path fuel g start goal = Returned pa ∧
             BranchAndBoundAgent_find_path fuel g start goal = Returned pb) ∧
    (pa = [] ↔ ∀ P, ¬ route g start goal P) ∧
    (pb = [] ↔ ∀ P, ¬ route g start goal P) ∧
    (costs_ge 1 rows cols g = true → total_cost g pa = total_cost g pb).
Proof.
  intros Hok Hstart.
  destruct (AS_find_path_route rows cols g start goal Hok Hstart) as (pa & Hra & Hpa).
  destruct (BB_find_path_spec rows cols g start goal Hok Hstart) as (pb & Hrb & Hpb).
  exists pa, pb. split_and!.
  - intros fuel Hfuel. split; [by apply Hra|by apply Hrb].
  - split.
    + intros ->. destruct Hpa as [[_ ?]|(Hh & _)]; done.
    + intros Hno. destruct Hpa as [[? _]|Hr]; [done|]. by destruct (Hno pa).
  - split.
    + intros ->. destruct Hpb as [[_ ?]|[(Hh & _) _]]; done.
    + intros Hno. destruct Hpb as [[? _]|[Hr _]]; [done|]. by destruct (Hno pb).
  - intros Hge.
    destruct (AS_find_path_spec rows cols g start goal Hok Hstart Hge) as (pa' & Hra' & Hpa').
    specialize (Hra _ (Nat.lt_succ_diag_r _)). specialize (Hra' _ (Nat.lt_succ_diag_r _)).
    assert (pa' = pa) as -> by congruence.
    destruct Hpa' as [[-> Hno]|[Ha Hamin]], Hpb as [[-> Hno']|[Hb Hbmin]]; [done| | |].
    + by destruct (Hno pb).
    + by destruct (Hno' pa).
    + destruct (Hamin pb Hb) as [? _]. destruct (Hbmin pa Ha) as [? _]. lia.
Qed.

Lemma C3_witness :
  let g := uniform3 1 four_dirs in
  ∃ pa pb,
    (∀ fuel, count_walks g (3 * 3 - 1) [(0, 0)%Z] < fuel →
             AStar_find_path fuel g (0, 0)%Z (2, 2)%Z = Returned pa ∧
             BranchAndBoundAgent_find_path fuel g (0, 0)%Z (2, 2)%Z = Returned pb) ∧
    (pa = [] ↔ ∀ P, ¬ route g (0, 0)%Z (2, 2)%Z P) ∧
    (pb = [] ↔ ∀ P, ¬ route g (0, 0)%Z (2, 2)%Z P) ∧
    total_cost g pa = total_cost g pb.
Proof.
  destruct (C3_same_cost 3 3 (uniform3 1 four_dirs) (0, 0)%Z (2, 2)%Z)
    as (pa & pb & Hrun & Ha & Hb & Hcost).
  - vm_compute. reflexivity.
  - vm_compute. reflexivity.
  - exists pa, pb. split; [exact Hrun|]. split; [exact Ha|]. split; [exact Hb|].
    apply Hcost. vm_compute. reflexivity.
Defined.

(** C4. The depth-first agent returns within twice as many iterations as
    the grid has tiles; what it returns is a route to the goal when the
    goal can be reached, and the empty path when it cannot. *)
Theorem C4_DFS_terminates rows cols g start goal :
  grid_ok rows cols g = true → in_bounds rows cols start = true →
  ∃ p, (∀ fuel, 2 * (rows * cols) ≤ fuel →
                DFSAgent_find_path fuel g start goal = Returned p) ∧
       (p = [] ∨ last p = Some goal) ∧
       (reachable g start goal → route g start goal p) ∧
       (¬ reachable g start goal → p = []).
Proof.
  intros Hok Hstart.
  destruct (DFS_terminates rows cols g start goal Hok Hstart (2 * (rows * cols)))
    as [p Hp]; [done|].
  pose proof (DFS_returned rows cols g start goal Hok Hstart _ _ Hp) as Hpost.
  exists p. split_and!.
  - intros fuel Hfuel. by eapply run_loop_mono.
  - destruct Hpost as [[? _]|(_ & ? & _)]; [by left|by right].
  - intros Hr. by destruct Hpost as [[_ ?]|?].
  - intros Hnr. destruct Hpost as [[? _]|(Hh & Hl & _ & Hch)]; [done|].
    destruct Hnr. by eapply chain_reachable.
Qed.

Lemma C4_witness :
  ∃ p, (∀ fuel, 2 * (2 * 3) ≤ fuel →
                DFSAgent_find_path fuel walled_grid (0, 0)%Z (0, 2)%Z = Returned p) ∧
       (p = [] ∨ last p = Some (0, 2)%Z) ∧
       (reachable walled_grid (0, 0)%Z (0, 2)%Z → route walled_grid (0, 0)%Z (0, 2)%Z p) ∧
       (¬ reachable walled_grid (0, 0)%Z (0, 2)%Z → p = []).
Proof.
  apply (C4_DFS_terminates 2 3 walled_grid (0, 0)%Z (0, 2)%Z).
  - vm_compute. reflexivity.
  - vm_compute. reflexivity.
Defined.

(** C5. [create_agent] fails exactly on the names that are not
    registered, with the error that lists the four registered names and
    without constructing anything; on a registered name it returns a
    reference to a newly constructed agent of the class registered under
    that name. *)
Theorem C5_create_agent (nm : string) (heap : list Agent) :
  ((∃ e, (create_agent nm heap).1 = inl e) ↔
   nm ∉ ["Example"; "DFS"; "BranchAndBound"; "AStar"]) ∧
  (nm ∉ ["Example"; "DFS"; "BranchAndBound"; "AStar"] →
   create_agent nm heap
   = (inl (ValueError ("Unknown agent '" +:+ nm
                       +:+ "'. Available: Example, DFS, BranchAndBound, AStar")),
      heap)) ∧
  (∀ cls, (nm, cls) ∈ [("Example", ExampleAgent); ("DFS", DFSAgent);
                        ("BranchAndBound", BranchAndBoundAgent); ("AStar", AStar)] →
     ∃ ref heap', create_agent nm heap = (inr ref, heap') ∧
                  heap !! ref = None ∧ heap' !! ref = Some (mkAgent cls nm) ∧
                  heap `prefix_of` heap').
Proof.
  assert (∀ cls, dict_get AGENTS nm = Some cls →
            ∃ ref heap', create_agent nm heap = (inr ref, heap') ∧
                         heap !! ref = None ∧ heap' !! ref = Some (construct cls) ∧
                         heap `prefix_of` heap') as Hfresh.
  { intros cls Hcls. exists (length heap), (heap ++ [construct cls]).
    unfold create_agent. rewrite Hcls. split_and!; [done| | |by eexists].
    - by apply lookup_ge_None.
    - by rewrite lookup_app_r, Nat.sub_diag. }
  assert (dict_get AGENTS nm = None →
          create_agent nm heap
          = (inl (ValueError ("Unknown agent '" +:+ nm
                       +:+ "'. Available: Example, DFS, BranchAndBound, AStar")),
             heap)) as Hfail.
  { intros Hnone. unfold create_agent. by rewrite Hnone. }
  rewrite registered_names. rewrite AGENTS_lookup in Hfresh, Hfail.
  split_and!.
  - split.
    + intros [e He] Hreg. 
      destruct Hreg as [-> | [-> | [-> | ->]]];
        (edestruct Hfresh as (ref & heap' & Hc & _); [reflexivity|]);
        rewrite Hc in He; discriminate He.
    + intros Hn. rewrite Hfail; [by eexists|].
      repeat case_decide; try done; destruct Hn; tauto.
  - intros Hn. apply Hfail. repeat case_decide; try done; destruct Hn; tauto.
  - intros cls Hcls. rewrite !elem_of_cons, elem_of_nil in Hcls.
    destruct Hcls as [[= -> ->]|[[= -> ->]|[[= -> ->]|[[= -> ->]|[]]]]];
      by apply Hfresh.
Qed.

(** C6. There is a grid with a goal out of reach of the start on which
    the greedy agent never stops: for every random source and every
    number [n] of iterations, after [n] iterations the loop is still
    running, [n] draws made, at a tile other than the goal. *)
Theorem C6_greedy_runs_forever :
  ∃ rows cols g start goal,
    grid_ok rows cols g = true ∧
    in_bounds rows cols start = true ∧ in_bounds rows cols goal = true ∧
    ¬ reachable g start goal ∧
    ∀ (rng : nat → nat) n,
      ∃ nodes, ExampleAgent_find_path rng n g start goal = Running (nodes, n) ∧
               last nodes ≠ Some goal.
Proof.
  exists 2, 3, walled_grid, (0, 0)%Z, (0, 2)%Z. split_and!; [by vm_compute..| |].
  - apply (DFS_empty_unreachable 2 3 _ _ _ 12); by vm_compute.
  - intros rng n.
    destruct (walled_run rng n [(0, 0)%Z] 0) as (nodes & Hrun & Hl); [by left|].
    exists nodes. unfold ExampleAgent_find_path. rewrite Hrun, Nat.add_0_r.
    split; [done|]. by destruct Hl as [-> | ->].
Qed.

(** C7. The depth-first agent is deterministic.  On a well-formed grid,
    grid, start and goal fix one path: every call returns it, within
    twice as many iterations as the grid has tiles, and no call returns
    anything else.  The agent draws nothing at random, and the one thing
    that may differ from call to call, the order in which the grid lists
    the neighbours of a tile, has no influence either: the key by which
    it sorts, entry cost and then direction, leaves no tie for the
    listing order to settle.  ([g'] ranges over the grids that yield the
    neighbours of [g] in whatever order, [g] among them by
    [same_neighbors_refl].) *)
Theorem C7_DFS_deterministic rows cols g start goal :
  grid_ok rows cols g = true → in_bounds rows cols start = true →
  ∃ p, ∀ g', same_neighbors rows cols g g' = true →
    (∀ fuel, 2 * (rows * cols) ≤ fuel →
             DFSAgent_find_path fuel g' start goal = Returned p) ∧
    (∀ fuel p', DFSAgent_find_path fuel g' start goal = Returned p' → p' = p).
Proof.
  intros Hok Hstart.
  destruct (DFS_terminates rows cols g start goal Hok Hstart (2 * (rows * cols)))
    as [p Hp]; [done|].
  exists p. intros g' Hsame.
  assert (∀ fuel, DFSAgent_find_path fuel g' start goal
                  = DFSAgent_find_path fuel g start goal) as Heq.
  { intros fuel. symmetry. unfold DFSAgent_find_path.
    apply (run_loop_ext_inv _ _ (DFS_inv rows cols g start goal)); [|by apply DFS_init].
    intros [nodes visited] Hs. split.
    - apply DFS_body_same_neighbors. intros cur Hcur.
      assert (in_bounds rows cols cur = true) as Hin.
      { destruct Hs as [_ Hnv Hvin _ _ _ _ _]. apply Hvin, Hnv. by apply last_Some_elem_of. }
      unfold same_neighbors in Hsame. rewrite forallb_forall in Hsame.
      apply elem_of_cells, list_elem_of_In, Hsame in Hin. by apply bool_decide_eq_true in Hin.
    - pose proof (DFS_body_spec rows cols g start goal Hok Hstart _ Hs) as Hb.
      destruct (DFS_body g goal (nodes, visited)); tauto. }
  split.
  - intros fuel Hfuel. rewrite Heq. by eapply run_loop_mono.
  - intros fuel p' Hp'. rewrite Heq in Hp'. symmetry. revert Hp Hp'. apply run_loop_unique.
Qed.

Lemma C7_witness :
  ∃ p, ∀ g', same_neighbors 2 3 detour_grid g' = true →
    (∀ fuel, 2 * (2 * 3) ≤ fuel →
             DFSAgent_find_path fuel g' (0, 0)%Z (0, 2)%Z = Returned p) ∧
    (∀ fuel p', DFSAgent_find_path fuel g' (0, 0)%Z (0, 2)%Z = Returned p' → p' = p).
Proof.
  apply (C7_DFS_deterministic 2 3 detour_grid (0, 0)%Z (0, 2)%Z).
  - vm_compute. reflexivity.
  - vm_compute. reflexivity.
Defined.

(** C8. On the 3 by 3 grid all of whose tiles cost [u] to enter, from
    [(0, 0)] to [(2, 2)], in whatever order the grid lists neighbours, the
    depth-first, the branch-and-bound and the A-star agent each return a
    path of five coordinates, four moves, of total cost [4 * u]. *)
Theorem C8_uniform_3x3 (u : Z) (dirs : list coord) :
  (0 ≤ u)%Z → dirs ≡ₚ four_dirs →
  ∃ fuel0, ∀ fuel, fuel0 ≤ fuel →
    ∃ p_dfs p_bb p_as,
      DFSAgent_find_path fuel (uniform3 u dirs) (0, 0)%Z (2, 2)%Z = Returned p_dfs ∧
      BranchAndBoundAgent_find_path fuel (uniform3 u dirs) (0, 0)%Z (2, 2)%Z = Returned p_bb ∧
      AStar_find_path fuel (uniform3 u dirs) (0, 0)%Z (2, 2)%Z = Returned p_as ∧
      Forall (λ p, length p = 5 ∧ total_cost (uniform3 u dirs) p = (4 * u)%Z)
             [p_dfs; p_bb; p_as].
Proof.
  intros Hu Hdirs.
  pose proof (uniform3_ok u dirs Hu Hdirs) as Hok.
  destruct (uniform3_facts u dirs Hdirs) as (Hc & (pd & Hd & Hdl) & (pa0 & Ha0 & Ha0l)).
  destruct (BB_find_path_spec 3 3 _ (0, 0)%Z (2, 2)%Z Hok eq_refl)
    as (pb & Hb & [[_ Hno]|Hbest]); [by destruct (Hno _ Hc)|].
  assert (∃ pa, (∀ fuel, 5 + count_walks (uniform3 u dirs) 8 [(0, 0)%Z] < fuel →
                         AStar_find_path fuel (uniform3 u dirs) (0, 0)%Z (2, 2)%Z
                         = Returned pa) ∧ length pa = 5) as (pa & Ha & Hal).
  { destruct (decide (u = 0%Z)) as [->|Hne].
    - exists pa0. split; [|done]. intros fuel Hfuel.
      eapply run_loop_mono; [exact Ha0|lia].
    - destruct (AS_find_path_spec 3 3 _ (0, 0)%Z (2, 2)%Z Hok eq_refl)
        as (pa & Ha & [[_ Hno]|Habest]); [|by destruct (Hno _ Hc)|].
      + apply rect_grid_costs_ge. intros _. lia.
      + exists pa. split; [|by eapply uniform3_cheapest].
        intros fuel Hfuel. apply Ha. change (3 * 3 - 1) with 8. lia. }
  exists (18 + S (5 + count_walks (uniform3 u dirs) 8 [(0, 0)%Z])).
  intros fuel Hfuel. exists pd, pb, pa. split_and!.
  - eapply run_loop_mono; [exact Hd|lia].
  - apply Hb. change (3 * 3 - 1) with 8. lia.
  - apply Ha. lia.
  - assert (∀ p : Path, length p = 5 →
              length p = 5 ∧ total_cost (uniform3 u dirs) p = (4 * u)%Z) as Hcost.
    { intros p Hp. split; [done|]. unfold uniform3.
      rewrite rect_grid_total_cost, Hp. simpl. lia. }
    repeat apply Forall_cons_2; [by apply Hcost| |by apply Hcost|by apply Forall_nil].
    apply Hcost. by eapply uniform3_cheapest.
Qed.

Lemma C8_witness :
  ∃ fuel0, ∀ fuel, fuel0 ≤ fuel →
    ∃ p_dfs p_bb p_as,
      DFSAgent_find_path fuel (uniform3 1 four_dirs) (0, 0)%Z (2, 2)%Z = Returned p_dfs ∧
      BranchAndBoundAgent_find_path fuel (uniform3 1 four_dirs) (0, 0)%Z (2, 2)%Z = Returned p_bb ∧
      AStar_find_path fuel (uniform3 1 four_dirs) (0, 0)%Z (2, 2)%Z = Returned p_as ∧
      Forall (λ p, length p = 5 ∧ total_cost (uniform3 1 four_dirs) p = (4 * 1)%Z)
             [p_dfs; p_bb; p_as].
Proof.
  apply (C8_uniform_3x3 1 four_dirs).
  - lia.
  - reflexivity.
Defined.

(** C9. Whatever the random draws, a path the greedy agent returns starts
    at [start], ends at [goal], and each of its moves goes to an
    orthogonally adjacent tile among the neighbours of the tile it leaves,
    none of which is nearer to the goal in Manhattan distance. *)
Theorem C9_greedy_path rows cols g start goal (rng : nat → nat) fuel p :
  grid_ok rows cols g = true → in_bounds rows cols start = true →
  ExampleAgent_find_path rng fuel g start goal = Returned p →
  head p = Some start ∧ last p = Some goal ∧
  chain (λ a b, adjacent4 a b = true ∧ greedy_move g goal a b) p.
Proof. apply Example_returned. Qed.

Lemma C9_witness :
  let p := [(0, 0); (1, 0); (2, 0); (2, 1); (2, 2)]%Z in
  head p = Some (0, 0)%Z ∧ last p = Some (2, 2)%Z ∧
  chain (λ a b, adjacent4 a b = true ∧ greedy_move (uniform3 1 four_dirs) (2, 2)%Z a b) p.
Proof.
  apply (C9_greedy_path 3 3 (uniform3 1 four_dirs) (0, 0)%Z (2, 2)%Z (λ _, 0) 5).
  - vm_compute. reflexivity.
  - vm_compute. reflexivity.
  - vm_compute. reflexivity.
Defined.

(** C10. When start and goal coincide, each of the four agents returns
    the one-coordinate path [[start]] at its first loop test. *)
Theorem C10_start_is_goal (rng : nat → nat) g start fuel :
  ExampleAgent_find_path rng (S fuel) g start start = Returned [start] ∧
  DFSAgent_find_path (S fuel) g start start = Returned [start] ∧
  BranchAndBoundAgent_find_path (S fuel) g start start = Returned [start] ∧
  AStar_find_path (S fuel) g start start = Returned [start].
Proof.
  destruct start as [r c].
  unfold ExampleAgent_find_path, DFSAgent_find_path, BranchAndBoundAgent_find_path, AStar_find_path.
  split_and!; simpl; by repeat case_decide.
Qed.

(** * Further properties *)

(** X1. Branch-and-bound breaks ties by length: the route it returns is a
    cheapest one and, among the cheapest routes, a shortest one. *)
Theorem X1_BB_cheapest_then_shortest rows cols g start goal fuel p P :
  grid_ok rows cols g = true → in_bounds rows cols start = true →
  BranchAndBoundAgent_find_path fuel g start goal = Returned p →
  route g start goal P →
  route g start goal p ∧
  (total_cost g p ≤ total_cost g P)%Z ∧
  (total_cost g p = total_cost g P → length p ≤ length P).
Proof.
  intros Hok Hstart Hp HP.
  destruct (BB_returned rows cols g start goal Hok Hstart fuel p Hp)
    as [[_ Hno]|[Hr Hmin]]; [by destruct (Hno P)|].
  split; [done|]. by apply Hmin.
Qed.

Lemma X1_witness :
  let p := [(0, 0); (1, 0); (1, 1); (1, 2); (0, 2)]%Z in
  let P := [(0, 0); (0, 1); (0, 2)]%Z in
  route detour_grid (0, 0)%Z (0, 2)%Z p ∧
  (total_cost detour_grid p ≤ total_cost detour_grid P)%Z ∧
  (total_cost detour_grid p = total_cost detour_grid P → length p ≤ length P).
Proof.
  apply (X1_BB_cheapest_then_shortest 2 3 detour_grid (0, 0)%Z (0, 2)%Z 30).
  - vm_compute. reflexivity.
  - vm_compute. reflexivity.
  - vm_compute. reflexivity.
  - by_compute.
Defined.

(** X2. Where every tile costs at least 1 to enter, A-star breaks ties
    the same way: its route is a cheapest one and, among the cheapest, a
    shortest one. *)
Theorem X2_AS_cheapest_then_shortest rows cols g start goal fuel p P :
  grid_ok rows cols g = true → costs_ge 1 rows cols g = true →
  in_bounds rows cols start = true →
  AStar_find_path fuel g start goal = Returned p →
  route g start goal P →
  route g start goal p ∧
  (total_cost g p ≤ total_cost g P)%Z ∧
  (total_cost g p = total_cost g P → length p ≤ length P).
Proof.
  intros Hok Hge Hstart Hp HP.
  destruct (AS_returned_cheapest rows cols g start goal Hok Hstart fuel p Hge Hp)
    as [[_ Hno]|[Hr Hmin]]; [by destruct (Hno P)|].
  split; [done|]. by apply Hmin.
Qed.

Lemma X2_witness :
  let g := uniform3 1 four_dirs in
  let p := [(0, 0); (1, 0); (2, 0); (2, 1); (2, 2)]%Z in
  let P := [(0, 0); (0, 1); (1, 1); (1, 0); (2, 0); (2, 1); (2, 2)]%Z in
  route g (0, 0)%Z (2, 2)%Z p ∧
  (total_cost g p ≤ total_cost g P)%Z ∧
  (total_cost g p = total_cost g P → length p ≤ length P).
Proof.
  apply (X2_AS_cheapest_then_shortest 3 3 (uniform3 1 four_dirs) (0, 0)%Z (2, 2)%Z 30).
  - vm_compute. reflexivity.
  - vm_compute. reflexivity.
  - vm_compute. reflexivity.
  - vm_compute. reflexivity.
  - by_compute.
Defined.

(** X3. Whatever the non-negative entry costs, the route A-star returns
    costs at most what any route [P] costs plus the number of moves of
    [P], and at most what [P] costs plus [rows + cols - 2], the largest
    Manhattan distance in the grid. *)
Theorem X3_AS_cost_bound rows cols g start goal fuel p P :
  grid_ok rows cols g = true → in_bounds rows cols start = true →
  AStar_find_path fuel g start goal = Returned p →
  route g start goal P →
  route g start goal p ∧
  (total_cost g p ≤ total_cost g P + Z.of_nat (length P - 1))%Z ∧
  (total_cost g p ≤ total_cost g P + (Z.of_nat rows + Z.of_nat cols - 2))%Z.
Proof. intros Hok Hstart. by apply AS_returned_bound. Qed.

Lemma X3_witness :
  let p := [(0, 0); (0, 1); (0, 2)]%Z in
  let P := [(0, 0); (1, 0); (1, 1); (1, 2); (0, 2)]%Z in
  route detour_grid (0, 0)%Z (0, 2)%Z p ∧
  (total_cost detour_grid p ≤ total_cost detour_grid P + Z.of_nat (length P - 1))%Z ∧
  (total_cost detour_grid p
   ≤ total_cost detour_grid P + (Z.of_nat 2 + Z.of_nat 3 - 2))%Z.
Proof.
  apply (X3_AS_cost_bound 2 3 detour_grid (0, 0)%Z (0, 2)%Z 30).
  - vm_compute. reflexivity.
  - vm_compute. reflexivity.
  - vm_compute. reflexivity.
  - by_compute.
Defined.

(** X4. The depth-first, the branch-and-bound and the A-star agent agree
    on whether there is a way: all three return, the first within twice
    as many iterations as the grid has tiles and the other two within as
    many as there are self-avoiding walks from the start, and each
    returns the empty path exactly when the goal is out of reach of the
    start. *)
Theorem X4_agents_agree_on_reach rows cols g start goal :
  grid_ok rows cols g = true → in_bounds rows cols start = true →
  ∃ pd pb pa,
    (∀ fuel, 2 * (rows * cols) ≤ fuel →
             DFSAgent_find_path fuel g start goal = Returned pd) ∧
    (∀ fuel, count_walks g (rows * cols - 1) [start] < fuel →
             BranchAndBoundAgent_find_path fuel g start goal = Returned pb ∧
             AStar_find_path fuel g start goal = Returned pa) ∧
    (pd = [] ↔ ¬ reachable g start goal) ∧
    (pb = [] ↔ ¬ reachable g start goal) ∧
    (pa = [] ↔ ¬ reachable g start goal).
Proof.
  intros Hok Hstart.
  pose proof (reachable_route rows cols g start goal Hok Hstart) as Hrr.
  assert (∀ p, route g start goal p → p ≠ [] ∧ reachable g start goal) as Hroute.
  { intros p Hp. split; [by intros ->; destruct Hp|]. apply Hrr. by exists p. }
  assert ((∀ P, ¬ route g start goal P) → ¬ reachable g start goal) as Hno.
  { intros Hno [P HP]%Hrr. by apply (Hno P). }
  destruct (DFS_terminates rows cols g start goal Hok Hstart (2 * (rows * cols)))
    as [pd Hd]; [done|].
  pose proof (DFS_returned rows cols g start goal Hok Hstart _ _ Hd) as Hpd.
  destruct (BB_find_path_spec rows cols g start goal Hok Hstart) as (pb & Hrb & Hpb).
  destruct (AS_find_path_route rows cols g start goal Hok Hstart) as (pa & Hra & Hpa).
  exists pd, pb, pa. split; [|split].
  - intros fuel Hfuel. by eapply run_loop_mono.
  - intros fuel Hfuel. split; [by apply Hrb|by apply Hra].
  - destruct Hpd as [[-> ?]|[? ?]%Hroute];
    destruct Hpb as [[-> ?]|[[? ?]%Hroute _]];
    destruct Hpa as [[-> ?]|[? ?]%Hroute];
    split_and!; split; intros; try done; try tauto; exfalso; auto.
Qed.

Lemma X4_witness :
  ∃ pd pb pa,
    (∀ fuel, 2 * (2 * 3) ≤ fuel →
             DFSAgent_find_path fuel walled_grid (0, 0)%Z (0, 2)%Z = Returned pd) ∧
    (∀ fuel, count_walks walled_grid (2 * 3 - 1) [(0, 0)%Z] < fuel →
             BranchAndBoundAgent_find_path fuel walled_grid (0, 0)%Z (0, 2)%Z = Returned pb ∧
             AStar_find_path fuel walled_grid (0, 0)%Z (0, 2)%Z = Returned pa) ∧
    (pd = [] ↔ ¬ reachable walled_grid (0, 0)%Z (0, 2)%Z) ∧
    (pb = [] ↔ ¬ reachable walled_grid (0, 0)%Z (0, 2)%Z) ∧
    (pa = [] ↔ ¬ reachable walled_grid (0, 0)%Z (0, 2)%Z).
Proof.
  apply (X4_agents_agree_on_reach 2 3 walled_grid (0, 0)%Z (0, 2)%Z).
  - vm_compute. reflexivity.
  - vm_compute. reflexivity.
Defined.

(** X5. For one query, the path of branch-and-bound never costs more than
    the path of the depth-first agent or the path of A-star. *)
Theorem X5_BB_never_dearer rows cols g start goal f1 f2 f3 pd pb pa :
  grid_ok rows cols g = true → in_bounds rows cols start = true →
  DFSAgent_find_path f1 g start goal = Returned pd →
  BranchAndBoundAgent_find_path f2 g start goal = Returned pb →
  AStar_find_path f3 g start goal = Returned pa →
  (total_cost g pb ≤ total_cost g pd)%Z ∧ (total_cost g pb ≤ total_cost g pa)%Z.
Proof.
  intros Hok Hstart Hd Hb Ha.
  destruct (BB_returned rows cols g start goal Hok Hstart _ _ Hb) as [[-> Hno]|[Hrb Hmin]].
  - destruct (DFS_returned rows cols g start goal Hok Hstart _ _ Hd) as [[-> _]|Hr];
      [|by destruct (Hno pd)].
    destruct (AS_returned rows cols g start goal Hok Hstart _ _ Ha) as [[-> _]|Hr];
      [done|by destruct (Hno pa)].
  - split.
    + destruct (DFS_returned rows cols g start goal Hok Hstart _ _ Hd) as [[_ Hnr]|Hr];
        [|by apply Hmin].
      destruct Hnr. apply (reachable_route rows cols g start goal Hok Hstart). by exists pb.
    + destruct (AS_returned rows cols g start goal Hok Hstart _ _ Ha) as [[_ Hno]|Hr];
        [by destruct (Hno pb)|by apply Hmin].
Qed.

Lemma X5_witness :
  let pd := [(0, 0); (1, 0); (1, 1); (1, 2); (0, 2)]%Z in
  let pb := [(0, 0); (1, 0); (1, 1); (1, 2); (0, 2)]%Z in
  let pa := [(0, 0); (0, 1); (0, 2)]%Z in
  (total_cost detour_grid pb ≤ total_cost detour_grid pd)%Z ∧
  (total_cost detour_grid pb ≤ total_cost detour_grid pa)%Z.
Proof.
  apply (X5_BB_never_dearer 2 3 detour_grid (0, 0)%Z (0, 2)%Z 12 30 30).
  - vm_compute. reflexivity.
  - vm_compute. reflexivity.
  - vm_compute. reflexivity.
  - vm_compute. reflexivity.
  - vm_compute. reflexivity.
Defined.

(** X6. On a well-formed grid none of the depth-first, the
    branch-and-bound and the A-star agent raises: the direction look-up
    of the first always finds its key, and for the other two
    [nodes.remove(best)] always finds [best] in the pool and the pool
    never holds an empty path. *)
Theorem X6_exhaustive_agents_never_raise rows cols g start goal fuel e :
  grid_ok rows cols g = true → in_bounds rows cols start = true →
  DFSAgent_find_path fuel g start goal ≠ Raised e ∧
  BranchAndBoundAgent_find_path fuel g start goal ≠ Raised e ∧
  AStar_find_path fuel g start goal ≠ Raised e.
Proof.
  intros Hok Hstart. split_and!.
  - apply (run_loop_no_raise _ (DFS_inv rows cols g start goal));
      [|by apply DFS_init].
    intros s Hs. pose proof (DFS_body_spec rows cols g start goal Hok Hstart s Hs) as Hb.
    destruct (DFS_body g goal s); tauto.
  - unfold BranchAndBoundAgent_find_path.
    pose proof (BB_init_inv rows cols g start goal Hstart) as Hinit. destruct start as [r c].
    apply (run_loop_no_raise _ (BF_inv bb_path (BB_cost_inv g) rows cols g (r, c) goal));
      [|done].
    intros s Hs. pose proof (BB_body_inv rows cols g (r, c) goal Hok s Hs) as Hb.
    by destruct (BB_body g goal s).
  - unfold AStar_find_path.
    pose proof (AS_init_inv rows cols g start goal Hstart) as Hinit. destruct start as [r c].
    apply (run_loop_no_raise _ (BF_inv as_path (AS_cost_inv g goal) rows cols g (r, c) goal));
      [|done].
    intros s Hs. pose proof (AS_body_inv rows cols g (r, c) goal Hok s Hs) as Hb.
    by destruct (AS_body g goal s).
Qed.

Lemma X6_witness :
  DFSAgent_find_path 3 detour_grid (0, 0)%Z (0, 2)%Z ≠ Raised KeyError ∧
  BranchAndBoundAgent_find_path 3 detour_grid (0, 0)%Z (0, 2)%Z ≠ Raised KeyError ∧
  AStar_find_path 3 detour_grid (0, 0)%Z (0, 2)%Z ≠ Raised KeyError.
Proof.
  apply (X6_exhaustive_agents_never_raise 2 3 detour_grid (0, 0)%Z (0, 2)%Z 3 KeyError).
  - vm_compute. reflexivity.
  - vm_compute. reflexivity.
Defined.

(** X7. At every iteration of branch-and-bound, every entry of the pool
    holds a walk from the start that visits no coordinate twice, and its
    ["cost"] is the sum of the entry costs of the tiles of its path, the
    start tile included. *)
Theorem X7_BB_pool_invariant rows cols g start goal fuel nodes :
  grid_ok rows cols g = true → in_bounds rows cols start = true →
  BranchAndBoundAgent_find_path fuel g start goal = Running nodes →
  Forall (λ e, head (bb_path e) = Some start ∧ NoDup (bb_path e) ∧
               chain (grid_step g) (bb_path e) ∧
               bb_cost e = walk_cost g (bb_path e)) nodes.
Proof.
  intros Hok Hstart Hrun. unfold BranchAndBoundAgent_find_path in Hrun.
  pose proof (BB_init_inv rows cols g start goal Hstart) as Hinit. destruct start as [r c].
  assert (BF_inv bb_path (BB_cost_inv g) rows cols g (r, c) goal nodes) as [Hgood _].
  { revert Hrun. apply run_loop_invariant_running; [|done].
    intros s Hs. pose proof (BB_body_inv rows cols g (r, c) goal Hok s Hs) as Hb.
    by destruct (BB_body g goal s). }
  apply Forall_forall. intros e He. by destruct (Hgood e He) as (? & ? & ? & _ & ?).
Qed.

Lemma X7_witness :
  Forall (λ e, head (bb_path e) = Some (0, 0)%Z ∧ NoDup (bb_path e) ∧
               chain (grid_step detour_grid) (bb_path e) ∧
               bb_cost e = walk_cost detour_grid (bb_path e))
    [mkBB [(0, 0); (0, 1)]%Z 1; mkBB [(0, 0); (1, 0); (1, 1)]%Z 0].
Proof.
  apply (X7_BB_pool_invariant 2 3 detour_grid (0, 0)%Z (0, 2)%Z 2).
  - vm_compute. reflexivity.
  - vm_compute. reflexivity.
  - vm_compute. reflexivity.
Defined.

(** X8. At every iteration of A-star, every entry of the pool holds a
    walk from the start that visits no coordinate twice, its ["gcost"] is
    the sum of the entry costs of the tiles of its path, and its
    ["hcost"], set once when the entry is made, is the Manhattan distance
    from the last coordinate of its path to the goal. *)
Theorem X8_AS_pool_invariant rows cols g start goal fuel nodes :
  grid_ok rows cols g = true → in_bounds rows cols start = true →
  AStar_find_path fuel g start goal = Running nodes →
  Forall (λ e, head (as_path e) = Some start ∧ NoDup (as_path e) ∧
               chain (grid_step g) (as_path e) ∧
               as_gcost e = walk_cost g (as_path e) ∧
               ∃ cur, last (as_path e) = Some cur ∧ as_hcost e = manhattan cur goal)
         nodes.
Proof.
  intros Hok Hstart Hrun. unfold AStar_find_path in Hrun.
  pose proof (AS_init_inv rows cols g start goal Hstart) as Hinit. destruct start as [r c].
  assert (BF_inv as_path (AS_cost_inv g goal) rows cols g (r, c) goal nodes) as [Hgood _].
  { revert Hrun. apply run_loop_invariant_running; [|done].
    intros s Hs. pose proof (AS_body_inv rows cols g (r, c) goal Hok s Hs) as Hb.
    by destruct (AS_body g goal s). }
  apply Forall_forall. intros e He.
  destruct (Hgood e He) as (Hh & ? & ? & _ & ? & Hhc). split_and!; try done.
  destruct (last (as_path e)) as [cur|] eqn:Hl.
  - exists cur. split; [done|]. by apply Hhc.
  - apply last_None in Hl. by rewrite Hl in Hh.
Qed.

Lemma X8_witness :
  Forall (λ e, head (as_path e) = Some (0, 0)%Z ∧ NoDup (as_path e) ∧
               chain (grid_step detour_grid) (as_path e) ∧
               as_gcost e = walk_cost detour_grid (as_path e) ∧
               ∃ cur, last (as_path e) = Some cur ∧
                      as_hcost e = manhattan cur (0, 2)%Z)
    [mkAS [(0, 0); (1, 0)]%Z 0 3; mkAS [(0, 0); (0, 1); (1, 1)]%Z 1 2;
     mkAS [(0, 0); (0, 1); (0, 2)]%Z 1 0].
Proof.
  apply (X8_AS_pool_invariant 2 3 detour_grid (0, 0)%Z (0, 2)%Z 2).
  - vm_compute. reflexivity.
  - vm_compute. reflexivity.
  - vm_compute. reflexivity.
Defined.

(** X9. A path returned by the depth-first, the branch-and-bound or the
    A-star agent never leaves the grid and has at most as many
    coordinates as the grid has tiles. *)
Theorem X9_returned_path_in_grid rows cols g start goal fuel p :
  grid_ok rows cols g = true → in_bounds rows cols start = true →
  DFSAgent_find_path fuel g start goal = Returned p ∨
  BranchAndBoundAgent_find_path fuel g start goal = Returned p ∨
  AStar_find_path fuel g start goal = Returned p →
  Forall (λ q, in_bounds rows cols q = true) p ∧ length p ≤ rows * cols.
Proof.
  intros Hok Hstart Hret.
  assert (p = [] ∨ route g start goal p) as [->|(Hh & _ & Hnd & Hch)].
  { destruct Hret as [Hp|[Hp|Hp]].
    - destruct (DFS_returned rows cols g start goal Hok Hstart fuel p Hp) as [[? _]|?]; auto.
    - destruct (BB_returned rows cols g start goal Hok Hstart fuel p Hp) as [[? _]|[? _]]; auto.
    - destruct (AS_returned rows cols g start goal Hok Hstart fuel p Hp) as [[? _]|?]; auto. }
  - split; [done|simpl; lia].
  - destruct (walk_in_bounds rows cols g p start Hok Hstart Hh Hch) as [_ Hin].
    split; [done|]. by apply NoDup_in_bounds_length.
Qed.

Lemma X9_witness :
  let p := [(0, 0); (0, 1); (0, 2)]%Z in
  Forall (λ q, in_bounds 2 3 q = true) p ∧ length p ≤ 2 * 3.
Proof.
  apply (X9_returned_path_in_grid 2 3 detour_grid (0, 0)%Z (0, 2)%Z 30).
  - vm_compute. reflexivity.
  - vm_compute. reflexivity.
  - right. right. vm_compute. reflexivity.
Defined.

(** X10. A search that fails has tried everything: when branch-and-bound
    returns the empty path, it and A-star each made exactly as many
    iterations as there are self-avoiding walks from the start, and
    returned the empty path at the next test of the loop. *)
Theorem X10_failing_search_is_exhaustive rows cols g start goal fuel0 fuel :
  grid_ok rows cols g = true → in_bounds rows cols start = true →
  BranchAndBoundAgent_find_path fuel0 g start goal = Returned [] →
  (fuel ≤ count_walks g (rows * cols - 1) [start] →
   (∃ nodes, BranchAndBoundAgent_find_path fuel g start goal = Running nodes) ∧
   (∃ nodes, AStar_find_path fuel g start goal = Running nodes)) ∧
  (count_walks g (rows * cols - 1) [start] < fuel →
   BranchAndBoundAgent_find_path fuel g start goal = Returned [] ∧
   AStar_find_path fuel g start goal = Returned []).
Proof.
  intros Hok Hstart H0.
  assert (∀ P, ¬ route g start goal P) as Hno.
  { by destruct (BB_returned rows cols g start goal Hok Hstart _ _ H0) as [[_ ?]|[[? _] _]]. }
  destruct (BF_exact bb_path BB_key BB_child (BB_cost_inv g) rows cols g start goal Hok
              (λ _ _, eq_refl) (BB_cost_child rows cols g start Hok) Hno
              (mkBB [start] (cost (get g start.1 start.2))) Hstart eq_refl) with (fuel := fuel)
    as [Hb1 Hb2].
  { unfold BB_cost_inv, walk_cost; simpl. unfold tile_cost_at. lia. }
  destruct (BF_exact as_path AS_key (AS_child goal) (AS_cost_inv g goal)
              rows cols g start goal Hok
              (λ _ _, eq_refl) (AS_cost_child rows cols g start goal Hok) Hno
              (mkAS [start] (cost (get g start.1 start.2)) (manhattan start goal))
              Hstart eq_refl) with (fuel := fuel)
    as [Ha1 Ha2].
  { unfold AS_cost_inv, walk_cost; simpl. unfold tile_cost_at.
    split; [lia|]. by intros cur [= <-]. }
  unfold BranchAndBoundAgent_find_path, AStar_find_path. destruct start as [r c].
  rewrite (run_loop_ext _ _ _ _ (BB_body_eq g goal)).
  rewrite (run_loop_ext _ _ _ _ (AS_body_eq g goal)).
  split; intros Hfuel; split; auto.
Qed.

Lemma X10_witness :
  (2 ≤ count_walks walled_grid (2 * 3 - 1) [(0, 0)%Z] →
   (∃ nodes, BranchAndBoundAgent_find_path 2 walled_grid (0, 0)%Z (0, 2)%Z = Running nodes) ∧
   (∃ nodes, AStar_find_path 2 walled_grid (0, 0)%Z (0, 2)%Z = Running nodes)) ∧
  (count_walks walled_grid (2 * 3 - 1) [(0, 0)%Z] < 2 →
   BranchAndBoundAgent_find_path 2 walled_grid (0, 0)%Z (0, 2)%Z = Returned [] ∧
   AStar_find_path 2 walled_grid (0, 0)%Z (0, 2)%Z = Returned []).
Proof.
  apply (X10_failing_search_is_exhaustive 2 3 walled_grid (0, 0)%Z (0, 2)%Z 30 2).
  - vm_compute. reflexivity.
  - vm_compute. reflexivity.
  - vm_compute. reflexivity.
Defined.

(** X11. Where every tile but the goal has a neighbour nearer to the goal
    (as on a grid without walls), the greedy agent returns whatever the
    random draws, within as many iterations as the Manhattan distance
    from start to goal, and its path has exactly that many moves. *)
Theorem X11_greedy_terminates rows cols g start goal (rng : nat → nat) fuel :
  grid_ok rows cols g = true → greedy_progress rows cols g goal = true →
  in_bounds rows cols start = true →
  Z.to_nat (manhattan start goal) < fuel →
  ∃ p, ExampleAgent_find_path rng fuel g start goal = Returned p ∧
       Z.of_nat (length p) = (manhattan start goal + 1)%Z.
Proof. intros Hok Hprogress Hstart. by apply (Example_progress_returns rows cols). Qed.

Lemma X11_witness :
  ∃ p, ExampleAgent_find_path (λ k, k) 5 (uniform3 1 four_dirs) (0, 0)%Z (2, 2)%Z
       = Returned p ∧
       Z.of_nat (length p) = (manhattan (0, 0)%Z (2, 2)%Z + 1)%Z.
Proof.
  apply (X11_greedy_terminates 3 3 (uniform3 1 four_dirs) (0, 0)%Z (2, 2)%Z (λ k, k) 5).
  - vm_compute. reflexivity.
  - vm_compute. reflexivity.
  - vm_compute. reflexivity.
  - vm_compute. lia.
Defined.

(** X12. From a start tile without neighbours, other than the goal, the
    greedy agent raises the [ValueError] of [min] on an empty argument,
    while the depth-first, the branch-and-bound and the A-star agent
    return the empty path at their second loop test. *)
Theorem X12_isolated_start (rng : nat → nat) g start goal fuel :
  start ≠ goal → neighbors4 g start.1 start.2 = [] →
  (∃ msg, ExampleAgent_find_path rng (S fuel) g start goal = Raised (ValueError msg)) ∧
  DFSAgent_find_path (S (S fuel)) g start goal = Returned [] ∧
  BranchAndBoundAgent_find_path (S (S fuel)) g start goal = Returned [] ∧
  AStar_find_path (S (S fuel)) g start goal = Returned [].
Proof.
  intros Hne Hnb. destruct start as [r c]; simpl in Hnb.
  unfold ExampleAgent_find_path, DFSAgent_find_path, BranchAndBoundAgent_find_path,
    AStar_find_path.
  split_and!; cbn [run_loop].
  - unfold Example_body; simpl. destruct (decide _) as [|_]; [done|]. rewrite Hnb.
    by eexists.
  - unfold DFS_body at 1; simpl. destruct (decide _) as [|_]; [done|]. rewrite Hnb. reflexivity.
  - unfold BB_body at 1; simpl. rewrite decide_True by done; simpl.
    destruct (decide _) as [|_]; [done|]. by rewrite Hnb.
  - unfold AS_body at 1; simpl. rewrite decide_True by done; simpl.
    destruct (decide _) as [|_]; [done|]. by rewrite Hnb.
Qed.

Lemma X12_witness :
  let g := rect_grid 1 3 (λ _, 1%Z) [(0, 1)%Z] four_dirs in
  (∃ msg, ExampleAgent_find_path (λ _, 0) 1 g (0, 0)%Z (0, 2)%Z = Raised (ValueError msg)) ∧
  DFSAgent_find_path 2 g (0, 0)%Z (0, 2)%Z = Returned [] ∧
  BranchAndBoundAgent_find_path 2 g (0, 0)%Z (0, 2)%Z = Returned [] ∧
  AStar_find_path 2 g (0, 0)%Z (0, 2)%Z = Returned [].
Proof.
  apply (X12_isolated_start (λ _, 0) (rect_grid 1 3 (λ _, 1%Z) [(0, 1)%Z] four_dirs)
           (0, 0)%Z (0, 2)%Z 0).
  - discriminate.
  - vm_compute. reflexivity.
Defined.

(** X13. The depth-first agent only knows the four orthogonal directions:
    when the grid yields, next to the start, an unvisited tile that is
    not one step east, south, west or north of it, the key look-up of
    [sorted] raises [KeyError] in the first iteration, whether or not
    that tile would have been chosen. *)
Theorem X13_DFS_KeyError g start goal t fuel :
  start ≠ goal → t ∈ neighbors4 g start.1 start.2 → pos t ≠ start →
  dict_get directions ((pos t).1 - start.1, (pos t).2 - start.2)%Z = None →
  DFSAgent_find_path (S fuel) g start goal = Raised KeyError.
Proof.
  intros Hne Ht Hpos Hdir. destruct start as [r c]; cbn [fst snd] in *.
  unfold DFSAgent_find_path. cbn [run_loop]. unfold DFS_body at 1; simpl.
  rewrite decide_False by done.
  rewrite (py_sorted_None _ _ t); [done| |].
  - apply list_elem_of_filter. split; [|done]. by intros ?%elem_of_singleton.
  - unfold DFS_key. by rewrite Hdir.
Qed.

Lemma X13_witness :
  DFSAgent_find_path 1 (rect_grid 2 2 (λ _, 1%Z) [] [(0, 1); (1, 1)]%Z) (0, 0)%Z (1, 0)%Z
  = Raised KeyError.
Proof.
  apply (X13_DFS_KeyError (rect_grid 2 2 (λ _, 1%Z) [] [(0, 1); (1, 1)]%Z)
           (0, 0)%Z (1, 0)%Z (mkTile (1, 1)%Z 1%Z) 0).
  - discriminate.
  - vm_compute. right. left.
  - discriminate.
  - vm_compute. reflexivity.
Defined.

(** X14. How the depth-first agent moves: it backtracks only when every
    neighbour of the current tile is visited; otherwise it steps to an
    unvisited neighbour than which no unvisited neighbour is cheaper, nor
    as cheap and earlier in the order east, south, west, north. *)
Theorem X14_DFS_step_choice (g : Grid) (goal : coord) (nodes : list coord)
    (visited : gset coord) (r c : Z) (s' : list coord * gset coord) :
  last nodes = Some (r, c) → (r, c) ≠ goal →
  DFS_body g goal (nodes, visited) = Continue s' →
  (s' = (removelast nodes, visited) ∧
   ∀ t, t ∈ neighbors4 g r c → pos t ∈ visited) ∨
  (∃ best db,
     best ∈ neighbors4 g r c ∧ (pos best ∉ visited) ∧
     s' = (nodes ++ [pos best], (visited ∪ {[pos best]})) ∧
     dict_get directions ((pos best).1 - r, (pos best).2 - c)%Z = Some db ∧
     ∀ t, t ∈ neighbors4 g r c → pos t ∉ visited →
          ∃ dt, dict_get directions ((pos t).1 - r, (pos t).2 - c)%Z = Some dt ∧
                (cost best < cost t ∨ (cost best = cost t ∧ db ≤ dt))%Z).
Proof.
  intros Hlast Hne. unfold DFS_body. rewrite Hlast.
  destruct (decide _) as [|_]; [done|].
  destruct (py_sorted _ _) as [[|best rest]|] eqn:Hs; [| |done]; intros [= <-].
  - left. split; [done|]. intros t Ht.
    apply py_sorted_perm, Permutation_nil_l in Hs.
    destruct (decide (pos t ∈ visited)) as [|Hnv]; [done|].
    assert (t ∈ filter (λ tile, pos tile ∉ visited) (neighbors4 g r c)) as Hin
      by by apply list_elem_of_filter.
    rewrite <-Hs in Hin. by apply elem_of_nil in Hin.
  - right. apply py_sorted_head in Hs as ([Hfresh Hbest]%list_elem_of_filter & kb & Hkb & Hmin).
    unfold DFS_key in Hkb.
    destruct (dict_get directions ((pos best).1 - r, (pos best).2 - c)%Z) as [db|] eqn:Hdb;
      [|done]. simpl in Hkb. injection Hkb as <-.
    exists best, db. split_and!; [done..|].
    intros t Ht Hnv. destruct (Hmin t) as (kt & Hkt & Hle).
    { by apply list_elem_of_filter. }
    unfold DFS_key in Hkt.
    destruct (dict_get directions ((pos t).1 - r, (pos t).2 - c)%Z) as [dt|]; [|done].
    simpl in Hkt. injection Hkt as <-. exists dt. split; [done|].
    apply key_lt_false in Hle. simpl in Hle. lia.
Qed.

Lemma X14_witness :
  let g := detour_grid in
  let visited : gset coord := {[(0, 0)%Z]} in
  let s' := ([(0, 0); (1, 0)]%Z, visited ∪ {[(1, 0)%Z]}) in
  (s' = (removelast [(0, 0)%Z], visited) ∧
   ∀ t, t ∈ neighbors4 g 0 0 → pos t ∈ visited) ∨
  (∃ best db,
     best ∈ neighbors4 g 0 0 ∧ (pos best ∉ visited) ∧
     s' = ([(0, 0)%Z] ++ [pos best], (visited ∪ {[pos best]})) ∧
     dict_get directions ((pos best).1 - 0, (pos best).2 - 0)%Z = Some db ∧
     ∀ t, t ∈ neighbors4 g 0 0 → pos t ∉ visited →
          ∃ dt, dict_get directions ((pos t).1 - 0, (pos t).2 - 0)%Z = Some dt ∧
                (cost best < cost t ∨ (cost best = cost t ∧ db ≤ dt))%Z).
Proof.
  apply (X14_DFS_step_choice detour_grid (0, 2)%Z [(0, 0)%Z] {[(0, 0)%Z]} 0%Z 0%Z).
  - reflexivity.
  - discriminate.
  - vm_compute. reflexivity.
Defined.

(** X15. The depth-first agent sorts the neighbours itself, by a key that
    tells them apart: its outcome does not depend on the order in which
    the grid lists the neighbours of a tile. *)
Theorem X15_DFS_neighbor_order rows cols g1 g2 start goal fuel :
  grid_ok rows cols g1 = true → same_neighbors rows cols g1 g2 = true →
  in_bounds rows cols start = true →
  DFSAgent_find_path fuel g1 start goal = DFSAgent_find_path fuel g2 start goal.
Proof.
  intros Hok Hsame Hstart. unfold DFSAgent_find_path.
  apply (run_loop_ext_inv _ _ (DFS_inv rows cols g1 start goal)); [|by apply DFS_init].
  intros [nodes visited] Hs. split.
  - apply DFS_body_same_neighbors. intros cur Hcur.
    assert (in_bounds rows cols cur = true) as Hin.
    { destruct Hs as [_ Hnv Hvin _ _ _ _ _]. apply Hvin, Hnv. by apply last_Some_elem_of. }
    unfold same_neighbors in Hsame. rewrite forallb_forall in Hsame.
    apply elem_of_cells, list_elem_of_In, Hsame in Hin. by apply bool_decide_eq_true in Hin.
  - pose proof (DFS_body_spec rows cols g1 start goal Hok Hstart _ Hs) as Hb.
    destruct (DFS_body g1 goal (nodes, visited)); tauto.
Qed.

Lemma X15_witness :
  DFSAgent_find_path 12 detour_grid (0, 0)%Z (0, 2)%Z
  = DFSAgent_find_path 12
      (rect_grid 2 3 (λ p, if decide (p = (0, 1)%Z) then 1%Z else 0%Z) []
         [(0, 1); (0, -1); (1, 0); (-1, 0)]%Z)
      (0, 0)%Z (0, 2)%Z.
Proof.
  apply (X15_DFS_neighbor_order 2 3).
  - vm_compute. reflexivity.
  - vm_compute. reflexivity.
  - vm_compute. reflexivity.
Defined.

(** X16. Every successful [create_agent] constructs an agent of its own:
    two calls in a row return different references, the second leaves
    the first agent and all earlier ones as they were. *)
Theorem X16_create_agent_twice n1 n2 heap r1 h1 r2 h2 :
  create_agent n1 heap = (inr r1, h1) → create_agent n2 h1 = (inr r2, h2) →
  r1 ≠ r2 ∧ is_Some (h1 !! r1) ∧ is_Some (h2 !! r2) ∧
  ∀ r, r < length h1 → h2 !! r = h1 !! r.
Proof.
  unfold create_agent. intros H1 H2.
  destruct (dict_get AGENTS n1) as [c1|]; [|done].
  destruct (dict_get AGENTS n2) as [c2|]; [|done]. simplify_eq.
  rewrite !length_app; simpl. split_and!.
  - lia.
  - apply lookup_lt_is_Some. rewrite length_app; simpl. lia.
  - apply lookup_lt_is_Some. rewrite !length_app; simpl. lia.
  - intros r Hr. by rewrite (lookup_app_l _ [_]) by (rewrite length_app; simpl; lia).
Qed.

Lemma X16_witness :
  0 ≠ 1 ∧ is_Some ([construct DFSAgent] !! 0) ∧
  is_Some ([construct DFSAgent; construct AStar] !! 1) ∧
  ∀ r, r < length [construct DFSAgent] →
       [construct DFSAgent; construct AStar] !! r = [construct DFSAgent] !! r.
Proof.
  apply (X16_create_agent_twice "DFS" "AStar" []).
  - reflexivity.
  - reflexivity.
Defined.
